(** * check-vmware: snapshot size attribution and threshold evaluation

    A shallow embedding of the snapshot engine of package [vsphere]
    (types [SnapshotSummary], [SnapshotSummarySet], [SnapshotSummarySets],
    the functions [ExceedsSize], [ExceedsAge], [removeFileKey],
    [NewSnapshotSummarySet]) and of the verdict switch of the
    [check_vmware_snapshots_age] plugin, followed by the properties of the
    specification that were checked against it.

    Conventions.
    - Go's [int64] and [int] (64-bit build) are integers of [Z]; every
      arithmetic operation of the source is written with its two's
      complement wrap-around ([int64.wrap]).  [int32] file keys are only
      compared for equality and stay plain [Z].
    - A Go slice is a [list]; [append] is [++]; a [for ... range] loop is a
      left fold, and a loop that returns [true] at the first hit is
      [existsb].
    - A Go map read [m[k]] of a missing key yields the zero value of the
      element type.
    - A counter incremented once per element of a slice, or increased by
      the length of a slice, stays far below [2^63] and is a plain
      integer.
    - A nil pointer dereference (a run-time panic) is the result [None]. *)

From Stdlib Require Import ZArith Lia List String Bool Permutation.
From stdpp Require Import base option list gmap strings.

Local Open Scope Z_scope.

(** ** Machine integers *)

Module int64.

Definition min_int : Z := - 2 ^ 63.
Definition max_int : Z := 2 ^ 63 - 1.

(** The value kept by a 64-bit signed register. *)
Definition wrap (z : Z) : Z := (z + 2 ^ 63) mod 2 ^ 64 - 2 ^ 63.

Definition in_range (z : Z) : Prop := min_int <= z <= max_int.

Definition add (a b : Z) : Z := wrap (a + b).
Definition mul (a b : Z) : Z := wrap (a * b).
Definition neg (a : Z) : Z := wrap (- a).

End int64.

(** ** Package [units] of govmomi: [GB = 1 << 30], an untyped constant. *)

Module units.
Definition GB : Z := Z.shiftl 1 30.
End units.

(** ** Package [time]

    A [time.Time] is read as its instant, in nanoseconds since the epoch;
    [Before], [Equal] and [After] compare instants.  The clock reading
    [time.Now()] and the calendar arithmetic of [Time.AddDate], which
    depends on the zone of the receiver, belong to the run-time library
    and are taken as an interface.  One evaluation is read at one clock
    instant. *)

Module time.

Definition Time : Type := Z.

Definition Before (t u : Time) : bool := t <? u.
Definition Equal (t u : Time) : bool := t =? u.
Definition After (t u : Time) : bool := t >? u.

(** The clock and the calendar of the library.  [Now] is one reading of
    [time.Now()]: a function that reads the clock is evaluated at that
    reading, so that a statement over one [Clock] speaks of values
    computed at one instant. *)
Class Clock : Type := {
  Now : Time;
  AddDate : Time -> Z -> Z -> Z -> Time
}.

(** A clock in UTC, where a calendar day is always 24 hours: the
    instance used by the worked examples. *)
Definition nsPerDay : Z := 86400 * 1000000000.

Definition utcClock (now : Time) : Clock :=
  {| Now := now;
     AddDate := fun t _ _ days => t + days * nsPerDay |}.

(** The calendar arithmetic of the library is not part of the package.
    Where the location has no clock change (UTC has none) and the result
    is an instant a [time.Time] can hold, [now.AddDate(0, 0, days)] is
    [days] times 24 hours from now: [wholeDays R] says so of a clock for
    every day count of magnitude up to [R]. *)
Definition wholeDays `{Clock} (R : Z) : Prop :=
  forall days : Z,
    - R <= days <= R -> AddDate Now 0 0 days = Now + days * nsPerDay.

End time.

Import time (Clock, Now, AddDate).

(** ** Threshold evaluators *)

(** [ExceedsSize]: is the size greater than the threshold given in GB? *)
Definition ExceedsSize (snapshotSize : Z) (thresholdSize : Z) : bool :=
  snapshotSize >? int64.mul thresholdSize units.GB.

(** The local [ageThreshold] of [ExceedsAge]: the clock reading wound back
    by the number of days. *)
Definition ageThreshold `{Clock} (days : Z) : time.Time :=
  let now := Now in
  let daysBack := int64.neg days in
  AddDate now 0 0 daysBack.

(** [ExceedsAge]: is the creation date older than the number of days? *)
Definition ExceedsAge `{Clock} (snapshotCreated : time.Time) (days : Z) : bool :=
  let ageThreshold := ageThreshold days in
  if time.Before snapshotCreated ageThreshold then true
  else if time.Equal snapshotCreated ageThreshold then false
  else if time.After snapshotCreated ageThreshold then false
  else false.

(** ** The inventory types read by the engine (govmomi [types] and [mo]) *)

Module ManagedObjectReference.
Record t : Type := Build { Type_ : string; Value : string }.
End ManagedObjectReference.

Module FileInfo.
(** [types.VirtualMachineFileLayoutExFileInfo] *)
Record t : Type := Build {
  Key : Z;
  Name : string;
  Type_ : string;
  Size : Z
}.
End FileInfo.

Module DiskUnit.
(** [types.VirtualMachineFileLayoutExDiskUnit] *)
Record t : Type := Build { FileKey : list Z }.
End DiskUnit.

Module DiskLayout.
(** [types.VirtualMachineFileLayoutExDiskLayout] *)
Record t : Type := Build { Key : Z; Chain : list DiskUnit.t }.
End DiskLayout.

Module SnapshotLayout.
(** [types.VirtualMachineFileLayoutExSnapshotLayout] *)
Record t : Type := Build {
  Key : ManagedObjectReference.t;
  DataKey : Z;
  Disk : list DiskLayout.t
}.
End SnapshotLayout.

Module FileLayoutEx.
(** [types.VirtualMachineFileLayoutEx] *)
Record t : Type := Build {
  File : list FileInfo.t;
  Disk : list DiskLayout.t;
  Snapshot : list SnapshotLayout.t
}.
End FileLayoutEx.

Module SnapshotTree.
(** [types.VirtualMachineSnapshotTree]; the induction principle that
    reaches the children is [SnapshotTree_ind'] below. *)
#[local] Unset Elimination Schemes.
Inductive t : Type := Build {
  Snapshot : ManagedObjectReference.t;
  Name : string;
  Description : string;
  Id : Z;
  CreateTime : time.Time;
  ChildSnapshotList : list t
}.
#[local] Set Elimination Schemes.
End SnapshotTree.

Module SnapshotInfo.
(** [types.VirtualMachineSnapshotInfo]; [CurrentSnapshot] is a pointer. *)
Record t : Type := Build {
  CurrentSnapshot : option ManagedObjectReference.t;
  RootSnapshotList : list SnapshotTree.t
}.
End SnapshotInfo.

Module VirtualMachine.
(** [mo.VirtualMachine]; [Snapshot] and [LayoutEx] are pointers. *)
Record t : Type := Build {
  Self : ManagedObjectReference.t;
  Name : string;
  Snapshot : option SnapshotInfo.t;
  LayoutEx : option FileLayoutEx.t
}.
End VirtualMachine.

(** ** [SnapshotSummary] *)

Module SnapshotSummary.

Record t : Type := Build {
  Name : string;
  MOID : string;
  Description : string;
  createTime : time.Time;
  Size : Z;
  ID : Z;
  ageWarningState : bool;
  ageCriticalState : bool;
  sizeWarningState : bool;
  sizeCriticalState : bool;
  VMName : string
}.

Definition IsAgeExceeded `{Clock} (ss : t) (days : Z) : bool :=
  ExceedsAge (createTime ss) days.

Definition IsSizeExceeded (ss : t) (sizeGB : Z) : bool :=
  ExceedsSize (Size ss) sizeGB.

Definition IsWarningState (ss : t) : bool :=
  ageWarningState ss || sizeWarningState ss.

Definition IsCriticalState (ss : t) : bool :=
  ageCriticalState ss || sizeCriticalState ss.

Definition IsAgeWarningState (ss : t) : bool := ageWarningState ss.
Definition IsAgeCriticalState (ss : t) : bool := ageCriticalState ss.
Definition IsSizeWarningState (ss : t) : bool := sizeWarningState ss.
Definition IsSizeCriticalState (ss : t) : bool := sizeCriticalState ss.

End SnapshotSummary.

(** ** [SnapshotSummarySet] *)

Module SnapshotSummarySet.

Record t : Type := Build {
  VM : ManagedObjectReference.t;
  VMName : string;
  Snapshots : list SnapshotSummary.t;
  setSizeWarningState : bool;
  setSizeCriticalState : bool
}.

Definition Size (sss : t) : Z :=
  foldl (fun sum snap => int64.add sum (SnapshotSummary.Size snap))
        0 (Snapshots sss).

Definition ExceedsAge `{Clock} (sss : t) (days : Z) : Z :=
  foldl (fun numExceeded snap =>
           if SnapshotSummary.IsAgeExceeded snap days
           then numExceeded + 1 else numExceeded)
        0 (Snapshots sss).

Definition ExceedsSize (sss : t) (sizeGB : Z) : Z :=
  foldl (fun numSnapshotsExceeded snap =>
           if SnapshotSummary.IsSizeExceeded snap sizeGB
           then numSnapshotsExceeded + 1 else numSnapshotsExceeded)
        0 (Snapshots sss).

Definition IsWarningState (sss : t) : bool :=
  existsb SnapshotSummary.IsWarningState (Snapshots sss).

Definition IsCriticalState (sss : t) : bool :=
  existsb SnapshotSummary.IsCriticalState (Snapshots sss).

Definition IsAgeWarningState (sss : t) : bool :=
  existsb SnapshotSummary.IsAgeWarningState (Snapshots sss).

Definition IsAgeCriticalState (sss : t) : bool :=
  existsb SnapshotSummary.IsAgeCriticalState (Snapshots sss).

Definition IsSizeWarningState (sss : t) : bool := setSizeWarningState sss.
Definition IsSizeCriticalState (sss : t) : bool := setSizeCriticalState sss.

End SnapshotSummarySet.

(** ** [SnapshotSummarySets], a slice of sets *)

Module SnapshotSummarySets.

Definition t : Type := list SnapshotSummarySet.t.

Definition Snapshots (sss : t) : Z :=
  foldl (fun numSnapshots set =>
           numSnapshots + Z.of_nat (length (SnapshotSummarySet.Snapshots set)))
        0 sss.

(** [HasNotYetExceededAge]: the two nested loops return at the first
    snapshot that is not older than the number of days. *)
Definition HasNotYetExceededAge `{Clock} (sss : t) (days : Z) : bool :=
  existsb (fun set =>
             existsb (fun snapSummary =>
                        negb (ExceedsAge (SnapshotSummary.createTime snapSummary)
                                         days))
                     (SnapshotSummarySet.Snapshots set))
          sss.

(** [HasNotYetExceededSize]: the loop returns at the first set whose
    cumulative size is not over the threshold. *)
Definition HasNotYetExceededSize (sss : t) (sizeGB : Z) : bool :=
  existsb (fun set => negb (ExceedsSize (SnapshotSummarySet.Size set) sizeGB))
          sss.

Definition ExceedsAge `{Clock} (sss : t) (days : Z) : Z * Z :=
  foldl (fun '(setsExceeded, snapshotsExceeded) set =>
           if SnapshotSummarySet.ExceedsAge set days >=? 1
           then (setsExceeded + 1,
                 snapshotsExceeded + SnapshotSummarySet.ExceedsAge set days)
           else (setsExceeded, snapshotsExceeded))
        (0, 0) sss.

Definition ExceedsSize (sss : t) (sizeGB : Z) : Z * Z :=
  foldl (fun '(numSetsExceeded, numSnapshotsExceeded) set =>
           if SnapshotSummarySet.Size set >? int64.mul sizeGB units.GB
           then (numSetsExceeded + 1,
                 numSnapshotsExceeded
                 + Z.of_nat (length (SnapshotSummarySet.Snapshots set)))
           else (numSetsExceeded, numSnapshotsExceeded))
        (0, 0) sss.

Definition IsWarningState (sss : t) : bool :=
  existsb SnapshotSummarySet.IsWarningState sss.

Definition IsCriticalState (sss : t) : bool :=
  existsb SnapshotSummarySet.IsCriticalState sss.

Definition IsAgeWarningState (sss : t) : bool :=
  existsb SnapshotSummarySet.IsAgeWarningState sss.

Definition IsAgeCriticalState (sss : t) : bool :=
  existsb SnapshotSummarySet.IsAgeCriticalState sss.

Definition IsSizeWarningState (sss : t) : bool :=
  existsb SnapshotSummarySet.IsSizeWarningState sss.

Definition IsSizeCriticalState (sss : t) : bool :=
  existsb SnapshotSummarySet.IsSizeCriticalState sss.

End SnapshotSummarySets.

(** ** [NewSnapshotSummarySet] *)

(** [removeFileKey] removes the first occurrence of a key from the list
    (the source edits the slice in place and leaves the loop at once). *)
Fixpoint removeFileKey (l : list Z) (key : Z) : list Z :=
  match l with
  | [] => []
  | k :: l' => if k =? key then l' else k :: removeFileKey l' key
  end.

(** [for _, key := range keys { removeFileKey(&l, key) }] *)
Definition removeFileKeys (l : list Z) (keys : list Z) : list Z :=
  foldl removeFileKey l keys.

(** The two nested loops that append every [link.FileKey...] of every
    chain of every disk to a slice of keys. *)
Definition appendChainFileKeys (keys : list Z) (disks : list DiskLayout.t)
  : list Z :=
  foldl (fun keys layoutExDisk =>
           foldl (fun keys link => keys ++ DiskUnit.FileKey link)
                 keys (DiskLayout.Chain layoutExDisk))
        keys disks.

(** All disk files attached to the virtual machine right now. *)
Definition vmAllDiskFileKeys (layoutEx : FileLayoutEx.t) : list Z :=
  appendChainFileKeys [] (FileLayoutEx.Disk layoutEx).

(** All files of the virtual machine indexed by file key; a later entry
    with the same key overwrites an earlier one. *)
Definition fileKeyMap (layoutEx : FileLayoutEx.t) : gmap Z FileInfo.t :=
  foldl (fun m fileLayout => <[FileInfo.Key fileLayout := fileLayout]> m)
        ∅ (FileLayoutEx.File layoutEx).

(** [fileKeyMap[fileKey].Size]: the zero [FileInfo] for a missing key. *)
Definition fileSize (m : gmap Z FileInfo.t) (fileKey : Z) : Z :=
  from_option FileInfo.Size 0 (m !! fileKey).

(** [for _, fileKey := range keys { snapshotSize += fileKeyMap[fileKey].Size }] *)
Definition addFileSizes (m : gmap Z FileInfo.t) (snapshotSize : Z)
  (keys : list Z) : Z :=
  foldl (fun snapshotSize fileKey => int64.add snapshotSize (fileSize m fileKey))
        snapshotSize keys.

Definition sameValue (a b : ManagedObjectReference.t) : bool :=
  String.eqb (ManagedObjectReference.Value a) (ManagedObjectReference.Value b).

(** The loop over [vm.LayoutEx.Snapshot] that collects
    [(snapshotDiskFileKeys, parentSnapshotDiskFileKeys)] for one node. *)
Definition collectFileKeys (snapLayouts : list SnapshotLayout.t)
  (snapshot : ManagedObjectReference.t)
  (parent : option ManagedObjectReference.t) : list Z * list Z :=
  foldl (fun '(snapshotDiskFileKeys, parentSnapshotDiskFileKeys) snapLayout =>
           let snapshotDiskFileKeys :=
             if sameValue (SnapshotLayout.Key snapLayout) snapshot
             then appendChainFileKeys
                    (snapshotDiskFileKeys ++ [SnapshotLayout.DataKey snapLayout])
                    (SnapshotLayout.Disk snapLayout)
             else snapshotDiskFileKeys in
           let parentSnapshotDiskFileKeys :=
             match parent with
             | Some parent =>
                 if sameValue (SnapshotLayout.Key snapLayout) parent
                 then appendChainFileKeys parentSnapshotDiskFileKeys
                        (SnapshotLayout.Disk snapLayout)
                 else parentSnapshotDiskFileKeys
             | None => parentSnapshotDiskFileKeys
             end in
           (snapshotDiskFileKeys, parentSnapshotDiskFileKeys))
        ([], []) snapLayouts.

(** The keys left for the node after the pruning [switch]. *)
Definition pruneFileKeys (vmAllDiskFileKeys : list Z)
  (parent : option ManagedObjectReference.t)
  (snapshotDiskFileKeys parentSnapshotDiskFileKeys : list Z) : list Z :=
  match parent with
  | None => removeFileKeys snapshotDiskFileKeys vmAllDiskFileKeys
  | Some _ => removeFileKeys snapshotDiskFileKeys parentSnapshotDiskFileKeys
  end.

(** The size attributed to one node, from the copies [allSnapshotKeys] and
    [remainingDiskFiles] to the end of the active-snapshot block;
    [active] is the test
    [snapTree.Snapshot.Value == vm.Snapshot.CurrentSnapshot.Value]. *)
Definition attributedSize (m : gmap Z FileInfo.t) (vmAllDiskFileKeys : list Z)
  (parent : option ManagedObjectReference.t)
  (snapshotDiskFileKeys parentSnapshotDiskFileKeys : list Z)
  (active : bool) : Z :=
  let allSnapshotKeys := snapshotDiskFileKeys in
  let remainingDiskFiles := vmAllDiskFileKeys in
  let snapshotDiskFileKeys :=
    pruneFileKeys vmAllDiskFileKeys parent
                  snapshotDiskFileKeys parentSnapshotDiskFileKeys in
  let snapshotSize := addFileSizes m 0 snapshotDiskFileKeys in
  if active then
    let remainingDiskFiles := removeFileKeys remainingDiskFiles allSnapshotKeys in
    addFileSizes m snapshotSize remainingDiskFiles
  else snapshotSize.

(** What [NewSnapshotSummarySet] fixes before the walk starts. *)
Record CrawlEnv : Type := {
  envVMName : string;
  envSnapshotInfo : SnapshotInfo.t;
  envLayoutEx : FileLayoutEx.t;
  snapshotsAgeCritical : Z;
  snapshotsAgeWarning : Z;
  snapshotsSizeCritical : Z;
  snapshotsSizeWarning : Z
}.

(** The size computed for one node of the walk. *)
Definition snapshotSizeOf (env : CrawlEnv)
  (current : ManagedObjectReference.t)
  (parent : option ManagedObjectReference.t)
  (snapshot : ManagedObjectReference.t) : Z :=
  let '(snapshotDiskFileKeys, parentSnapshotDiskFileKeys) :=
    collectFileKeys (FileLayoutEx.Snapshot (envLayoutEx env)) snapshot parent in
  attributedSize (fileKeyMap (envLayoutEx env))
                 (vmAllDiskFileKeys (envLayoutEx env))
                 parent snapshotDiskFileKeys parentSnapshotDiskFileKeys
                 (sameValue snapshot current).

(** The [SnapshotSummary] literal appended for one node. *)
Definition newSnapshotSummary `{Clock} (env : CrawlEnv)
  (snapshotSize : Z) (snapTree : SnapshotTree.t) : SnapshotSummary.t :=
  {| SnapshotSummary.Name := SnapshotTree.Name snapTree;
     SnapshotSummary.VMName := envVMName env;
     SnapshotSummary.ID := SnapshotTree.Id snapTree;
     SnapshotSummary.MOID :=
       ManagedObjectReference.Value (SnapshotTree.Snapshot snapTree);
     SnapshotSummary.Description := SnapshotTree.Description snapTree;
     SnapshotSummary.Size := snapshotSize;
     SnapshotSummary.createTime := SnapshotTree.CreateTime snapTree;
     SnapshotSummary.ageWarningState :=
       ExceedsAge (SnapshotTree.CreateTime snapTree) (snapshotsAgeWarning env);
     SnapshotSummary.ageCriticalState :=
       ExceedsAge (SnapshotTree.CreateTime snapTree) (snapshotsAgeCritical env);
     SnapshotSummary.sizeWarningState :=
       ExceedsSize snapshotSize (snapshotsSizeCritical env);
     SnapshotSummary.sizeCriticalState :=
       ExceedsSize snapshotSize (snapshotsSizeWarning env) |}.

(** A [for ... range] loop whose body may panic, threading the state. *)
Definition forRange {A S : Type} (body : A -> S -> option S)
  : list A -> S -> option S :=
  fix loop (l : list A) (s : S) : option S :=
    match l with
    | [] => Some s
    | x :: l' =>
        match body x s with
        | Some s' => loop l' s'
        | None => None
        end
    end.

(** One iteration of the loop of [crawlFunc]: the state is the slice
    [snapshots] shared by all invocations.  Reading
    [vm.Snapshot.CurrentSnapshot.Value] panics when the pointer is nil. *)
Fixpoint crawlSnapTree `{Clock} (env : CrawlEnv)
  (parent : option ManagedObjectReference.t) (snapTree : SnapshotTree.t)
  (snapshots : list SnapshotSummary.t) {struct snapTree}
  : option (list SnapshotSummary.t) :=
  match snapTree with
  | SnapshotTree.Build snapshot _ _ _ _ children =>
      match SnapshotInfo.CurrentSnapshot (envSnapshotInfo env) with
      | None => None
      | Some current =>
          let snapshotSize := snapshotSizeOf env current parent snapshot in
          let snapshots :=
            snapshots ++ [newSnapshotSummary env snapshotSize snapTree] in
          forRange (crawlSnapTree env (Some snapshot)) children snapshots
      end
  end.

Definition crawlFunc `{Clock} (env : CrawlEnv)
  (snapTrees : list SnapshotTree.t)
  (parent : option ManagedObjectReference.t)
  (snapshots : list SnapshotSummary.t) : option (list SnapshotSummary.t) :=
  forRange (crawlSnapTree env parent) snapTrees snapshots.

Definition NewSnapshotSummarySet `{Clock} (vm : VirtualMachine.t)
  (snapshotsAgeCritical snapshotsAgeWarning : Z)
  (snapshotsSizeCritical snapshotsSizeWarning : Z)
  : option SnapshotSummarySet.t :=
  match VirtualMachine.Snapshot vm, VirtualMachine.LayoutEx vm with
  | Some snapshotInfo, Some layoutEx =>
      let env := {| envVMName := VirtualMachine.Name vm;
                    envSnapshotInfo := snapshotInfo;
                    envLayoutEx := layoutEx;
                    snapshotsAgeCritical := snapshotsAgeCritical;
                    snapshotsAgeWarning := snapshotsAgeWarning;
                    snapshotsSizeCritical := snapshotsSizeCritical;
                    snapshotsSizeWarning := snapshotsSizeWarning |} in
      match crawlFunc env (SnapshotInfo.RootSnapshotList snapshotInfo) None []
      with
      | Some snapshots =>
          let setSize :=
            foldl (fun setSize snap => int64.add setSize (SnapshotSummary.Size snap))
                  0 snapshots in
          Some {| SnapshotSummarySet.VM := VirtualMachine.Self vm;
                  SnapshotSummarySet.VMName := VirtualMachine.Name vm;
                  SnapshotSummarySet.Snapshots := snapshots;
                  SnapshotSummarySet.setSizeWarningState :=
                    ExceedsSize setSize snapshotsSizeWarning;
                  SnapshotSummarySet.setSizeCriticalState :=
                    ExceedsSize setSize snapshotsSizeCritical |}
      | None => None
      end
  | _, _ => None
  end.

(** ** The verdict of the [check_vmware_snapshots_age] plugin *)

Module nagios.
Definition StateOKExitCode : Z := 0.
Definition StateWARNINGExitCode : Z := 1.
Definition StateCRITICALExitCode : Z := 2.
End nagios.

(** The [switch] that closes [main]: the exit status code it selects. *)
Definition ExitStatusCode (snapshotSets : SnapshotSummarySets.t) : Z :=
  if SnapshotSummarySets.IsAgeCriticalState snapshotSets
  then nagios.StateCRITICALExitCode
  else if SnapshotSummarySets.IsAgeWarningState snapshotSets
  then nagios.StateWARNINGExitCode
  else nagios.StateOKExitCode.

(** ** Notions used to state the properties *)

(** The sum of a list of integers, without any wrap-around. *)
Definition sumZ (l : list Z) : Z := foldr Z.add 0 l.

(** How many elements of a list pass a test. *)
Definition countIf {A : Type} (p : A -> bool) (l : list A) : Z :=
  Z.of_nat (length (List.filter p l)).

(** All the snapshot summaries of a collection of sets. *)
Definition allSnapshots (sss : SnapshotSummarySets.t) : list SnapshotSummary.t :=
  flat_map SnapshotSummarySet.Snapshots sss.

(** Some snapshot of some set of the collection passes the test. *)
Definition someSnapshot (p : SnapshotSummary.t -> bool)
  (sss : SnapshotSummarySets.t) : Prop :=
  exists set snap,
    In set sss /\ In snap (SnapshotSummarySet.Snapshots set) /\ p snap = true.

(** The file keys of all chains of a list of disks, in order. *)
Definition chainFileKeys (disks : list DiskLayout.t) : list Z :=
  flat_map (fun disk => flat_map DiskUnit.FileKey (DiskLayout.Chain disk)) disks.

(** The layout entries whose key has the value of a snapshot reference. *)
Definition layoutsOf (snapLayouts : list SnapshotLayout.t)
  (snapshot : ManagedObjectReference.t) : list SnapshotLayout.t :=
  List.filter (fun snapLayout => sameValue (SnapshotLayout.Key snapLayout) snapshot)
              snapLayouts.

(** this-snapshot-keys: the data file key and the disk chain keys of the
    snapshot's layout entries. *)
Definition thisSnapshotKeys (snapLayouts : list SnapshotLayout.t)
  (snapshot : ManagedObjectReference.t) : list Z :=
  flat_map (fun snapLayout =>
              SnapshotLayout.DataKey snapLayout
              :: chainFileKeys (SnapshotLayout.Disk snapLayout))
           (layoutsOf snapLayouts snapshot).

(** The data file keys alone, and the disk chain keys alone. *)
Definition snapshotDataKeys (snapLayouts : list SnapshotLayout.t)
  (snapshot : ManagedObjectReference.t) : list Z :=
  map SnapshotLayout.DataKey (layoutsOf snapLayouts snapshot).

Definition snapshotChainKeys (snapLayouts : list SnapshotLayout.t)
  (snapshot : ManagedObjectReference.t) : list Z :=
  flat_map (fun snapLayout => chainFileKeys (SnapshotLayout.Disk snapLayout))
           (layoutsOf snapLayouts snapshot).

(** parent-disk-keys: nothing without a parent, else the disk chain keys
    of the parent's layout entries. *)
Definition parentDiskKeys (snapLayouts : list SnapshotLayout.t)
  (parent : option ManagedObjectReference.t) : list Z :=
  match parent with
  | None => []
  | Some parent => snapshotChainKeys snapLayouts parent
  end.

(** The depth-first pre-order of a forest: every node with its parent
    context, a node before its children, siblings in the given order. *)
Fixpoint preorderTree (parent : option ManagedObjectReference.t)
  (snapTree : SnapshotTree.t)
  : list (option ManagedObjectReference.t * SnapshotTree.t) :=
  match snapTree with
  | SnapshotTree.Build snapshot _ _ _ _ children =>
      (parent, snapTree) :: flat_map (preorderTree (Some snapshot)) children
  end.

Definition preorder (parent : option ManagedObjectReference.t)
  (snapTrees : list SnapshotTree.t)
  : list (option ManagedObjectReference.t * SnapshotTree.t) :=
  flat_map (preorderTree parent) snapTrees.

(** The number of nodes of a forest. *)
Fixpoint nodeCountTree (snapTree : SnapshotTree.t) : nat :=
  match snapTree with
  | SnapshotTree.Build _ _ _ _ _ children =>
      S (list_sum (map nodeCountTree children))
  end.

Definition nodeCount (snapTrees : list SnapshotTree.t) : nat :=
  list_sum (map nodeCountTree snapTrees).

(** The summary the walk owes to a node met with a given parent context. *)
Definition summaryOf `{Clock} (env : CrawlEnv)
  (current : ManagedObjectReference.t)
  (visit : option ManagedObjectReference.t * SnapshotTree.t)
  : SnapshotSummary.t :=
  newSnapshotSummary env
    (snapshotSizeOf env current (fst visit) (SnapshotTree.Snapshot (snd visit)))
    (snd visit).

(** Induction on a snapshot tree, with the property at hand for all the
    children of the node. *)
Fixpoint SnapshotTree_ind' (P : SnapshotTree.t -> Prop)
  (step : forall snapshot name description id createTime children,
      Forall P children ->
      P (SnapshotTree.Build snapshot name description id createTime children))
  (snapTree : SnapshotTree.t) : P snapTree :=
  match snapTree with
  | SnapshotTree.Build snapshot name description id createTime children =>
      step snapshot name description id createTime children
        ((fix all (l : list SnapshotTree.t) : Forall P l :=
            match l with
            | [] => @ListDef.Forall_nil _ P
            | child :: l' =>
                @ListDef.Forall_cons _ P child l' (SnapshotTree_ind' P step child) (all l')
            end) children)
  end.

(** A set returned by [NewSnapshotSummarySet] for some machine under the
    given thresholds. *)
Definition builtWith `{Clock} (ageC ageW sizeC sizeW : Z)
  (set : SnapshotSummarySet.t) : Prop :=
  exists vm, NewSnapshotSummarySet vm ageC ageW sizeC sizeW = Some set.

(** The nodes of the snapshot forest of a machine, in pre-order. *)
Definition forestNodes (vm : VirtualMachine.t) : list SnapshotTree.t :=
  match VirtualMachine.Snapshot vm with
  | Some snapshotInfo =>
      map snd (preorder None (SnapshotInfo.RootSnapshotList snapshotInfo))
  | None => []
  end.

(** Some snapshot of some machine of the list is older than the number of
    days. *)
Definition someSnapshotOlder `{Clock} (vms : list VirtualMachine.t)
  (days : Z) : Prop :=
  exists vm node,
    In vm vms /\ In node (forestNodes vm)
    /\ ExceedsAge (SnapshotTree.CreateTime node) days = true.

(** The machine has snapshot information with a root snapshot. *)
Definition hasSnapshots (vm : VirtualMachine.t) : bool :=
  match VirtualMachine.Snapshot vm with
  | Some snapshotInfo =>
      match SnapshotInfo.RootSnapshotList snapshotInfo with
      | [] => false
      | _ :: _ => true
      end
  | None => false
  end.

(** ** Sample data for the worked examples *)

Definition sampleSummary (size : Z) (ageW ageC sizeW sizeC : bool)
  : SnapshotSummary.t :=
  {| SnapshotSummary.Name := "snap"; SnapshotSummary.MOID := "snapshot-1";
     SnapshotSummary.Description := "sample"; SnapshotSummary.createTime := 0;
     SnapshotSummary.Size := size; SnapshotSummary.ID := 1;
     SnapshotSummary.ageWarningState := ageW;
     SnapshotSummary.ageCriticalState := ageC;
     SnapshotSummary.sizeWarningState := sizeW;
     SnapshotSummary.sizeCriticalState := sizeC;
     SnapshotSummary.VMName := "vm" |}.

Definition sampleSet (snapshots : list SnapshotSummary.t) (setW setC : bool)
  : SnapshotSummarySet.t :=
  {| SnapshotSummarySet.VM :=
       {| ManagedObjectReference.Type_ := "VirtualMachine";
          ManagedObjectReference.Value := "vm-1" |};
     SnapshotSummarySet.VMName := "vm";
     SnapshotSummarySet.Snapshots := snapshots;
     SnapshotSummarySet.setSizeWarningState := setW;
     SnapshotSummarySet.setSizeCriticalState := setC |}.


Definition ref (value : string) : ManagedObjectReference.t :=
  {| ManagedObjectReference.Type_ := "VirtualMachineSnapshot";
     ManagedObjectReference.Value := value |}.

Definition sampleFile (key size : Z) : FileInfo.t :=
  {| FileInfo.Key := key; FileInfo.Name := "file";
     FileInfo.Type_ := "diskExtent"; FileInfo.Size := size |}.

Definition sampleDisk (key : Z) (fileKeys : list Z) : DiskLayout.t :=
  {| DiskLayout.Key := key;
     DiskLayout.Chain := [ {| DiskUnit.FileKey := fileKeys |} ] |}.

Definition sampleLeaf (value : string) (id : Z) : SnapshotTree.t :=
  SnapshotTree.Build (ref value) "snap" "sample" id 0 [].

Definition sampleVM (current : option ManagedObjectReference.t)
  (roots : list SnapshotTree.t) (layoutEx : FileLayoutEx.t) : VirtualMachine.t :=
  {| VirtualMachine.Self :=
       {| ManagedObjectReference.Type_ := "VirtualMachine";
          ManagedObjectReference.Value := "vm-1" |};
     VirtualMachine.Name := "vm";
     VirtualMachine.Snapshot :=
       Some {| SnapshotInfo.CurrentSnapshot := current;
               SnapshotInfo.RootSnapshotList := roots |};
     VirtualMachine.LayoutEx := Some layoutEx |}.

(** One machine without disks and one root snapshot, the active one,
    whose data file has 2 GiB. *)
Definition layoutTwoGiB : FileLayoutEx.t :=
  {| FileLayoutEx.File := [ sampleFile 1 (2 * 1024 ^ 3) ];
     FileLayoutEx.Disk := [];
     FileLayoutEx.Snapshot :=
       [ {| SnapshotLayout.Key := ref "snapshot-1";
            SnapshotLayout.DataKey := 1;
            SnapshotLayout.Disk := [] |} ] |}.

Definition vmTwoGiB : VirtualMachine.t :=
  sampleVM (Some (ref "snapshot-1")) [ sampleLeaf "snapshot-1" 1 ] layoutTwoGiB.

(** The same machine with no current snapshot reference. *)
Definition vmNoCurrent : VirtualMachine.t :=
  sampleVM None [ sampleLeaf "snapshot-1" 1 ] layoutTwoGiB.

(** One machine with two root snapshots whose data files have [2^62]
    bytes each. *)
Definition layoutHuge : FileLayoutEx.t :=
  {| FileLayoutEx.File := [ sampleFile 1 (2 ^ 62); sampleFile 2 (2 ^ 62) ];
     FileLayoutEx.Disk := [];
     FileLayoutEx.Snapshot :=
       [ {| SnapshotLayout.Key := ref "snapshot-1";
            SnapshotLayout.DataKey := 1;
            SnapshotLayout.Disk := [] |};
         {| SnapshotLayout.Key := ref "snapshot-2";
            SnapshotLayout.DataKey := 2;
            SnapshotLayout.Disk := [] |} ] |}.

Definition vmHuge : VirtualMachine.t :=
  sampleVM (Some (ref "snapshot-2"))
           [ sampleLeaf "snapshot-1" 1; sampleLeaf "snapshot-2" 2 ] layoutHuge.

(** One machine with one disk of two files, a root snapshot taken on
    that very chain with a data file of 100 bytes, and a second root
    snapshot that is the active one. *)
Definition layoutRoot : FileLayoutEx.t :=
  {| FileLayoutEx.File :=
       [ sampleFile 1 1000; sampleFile 2 2000; sampleFile 9 100 ];
     FileLayoutEx.Disk := [ sampleDisk 2000 [1; 2] ];
     FileLayoutEx.Snapshot :=
       [ {| SnapshotLayout.Key := ref "snapshot-1";
            SnapshotLayout.DataKey := 9;
            SnapshotLayout.Disk := [ sampleDisk 2000 [1; 2] ] |} ] |}.

Definition envOf (vmName : string) (snapshotInfo : SnapshotInfo.t)
  (layoutEx : FileLayoutEx.t) (ageC ageW sizeC sizeW : Z) : CrawlEnv :=
  {| envVMName := vmName;
     envSnapshotInfo := snapshotInfo;
     envLayoutEx := layoutEx;
     snapshotsAgeCritical := ageC;
     snapshotsAgeWarning := ageW;
     snapshotsSizeCritical := sizeC;
     snapshotsSizeWarning := sizeW |}.

Definition envRoot : CrawlEnv :=
  envOf "vm"
        {| SnapshotInfo.CurrentSnapshot := Some (ref "snapshot-2");
           SnapshotInfo.RootSnapshotList :=
             [ sampleLeaf "snapshot-1" 1; sampleLeaf "snapshot-2" 2 ] |}
        layoutRoot 60 30 20 10.

(** The machine of the end-to-end scenario of the specification, read at
    day 1000: a base disk (key 1), the root snapshot [S1] taken on it 40
    days ago with 2 GiB of data (key 10), its child [S2], the active
    snapshot, taken 5 days ago on the chain of keys 1 and 2 with 1 GiB of
    data of its own (keys 11 and 2), and half a GiB written since
    (key 3). *)
Definition scenarioNow : time.Time := 1000 * time.nsPerDay.

Definition scenarioLayout : FileLayoutEx.t :=
  {| FileLayoutEx.File :=
       [ sampleFile 1 (40 * 1024 ^ 3);
         sampleFile 2 (512 * 1024 ^ 2);
         sampleFile 3 (512 * 1024 ^ 2);
         sampleFile 10 (2 * 1024 ^ 3);
         sampleFile 11 (512 * 1024 ^ 2) ];
     FileLayoutEx.Disk := [ sampleDisk 2000 [1; 2; 3] ];
     FileLayoutEx.Snapshot :=
       [ {| SnapshotLayout.Key := ref "S1";
            SnapshotLayout.DataKey := 10;
            SnapshotLayout.Disk := [ sampleDisk 2000 [1] ] |};
         {| SnapshotLayout.Key := ref "S2";
            SnapshotLayout.DataKey := 11;
            SnapshotLayout.Disk := [ sampleDisk 2000 [1; 2] ] |} ] |}.

Definition scenarioVM : VirtualMachine.t :=
  sampleVM (Some (ref "S2"))
    [ SnapshotTree.Build (ref "S1") "S1" "root" 1
        (scenarioNow - 40 * time.nsPerDay)
        [ SnapshotTree.Build (ref "S2") "S2" "child" 2
            (scenarioNow - 5 * time.nsPerDay) [] ] ]
    scenarioLayout.

(** ** The rest of the snapshot code of the package *)

(** [FilterVMsWithSnapshots].  The test [vm.Snapshot.RootSnapshotList !=
    nil] asks whether the slice is nil, which the list of its elements
    does not tell: a slice without element is nil or not.  The answer is
    read from [RootSnapshotListIsNil]. *)
Section NilSlices.

Variable RootSnapshotListIsNil : SnapshotInfo.t -> bool.

Definition FilterVMsWithSnapshots (vms : list VirtualMachine.t)
  : list VirtualMachine.t :=
  foldl (fun vmsWithSnapshots vm =>
           match VirtualMachine.Snapshot vm with
           | Some snapshotInfo =>
               if negb (RootSnapshotListIsNil snapshotInfo)
               then vmsWithSnapshots ++ [vm]
               else vmsWithSnapshots
           | None => vmsWithSnapshots
           end)
        [] vms.

(** The machine has snapshot information whose list of root snapshots is
    not nil. *)
Definition hasRootSnapshotList (vm : VirtualMachine.t) : bool :=
  match VirtualMachine.Snapshot vm with
  | Some snapshotInfo => negb (RootSnapshotListIsNil snapshotInfo)
  | None => false
  end.

End NilSlices.

(** A nil slice has no element. *)
Definition nilHasNoElement (isNil : SnapshotInfo.t -> bool) : Prop :=
  forall snapshotInfo,
    isNil snapshotInfo = true ->
    SnapshotInfo.RootSnapshotList snapshotInfo = [].

(** For the examples: a machine that never had a snapshot (no current
    snapshot, a nil list of roots), and one whose list of roots is empty
    without being nil; the nil lists are told by the missing current
    snapshot. *)
Definition vmNeverSnapshotted : VirtualMachine.t :=
  sampleVM None [] layoutTwoGiB.

Definition vmEmptyRootList : VirtualMachine.t :=
  sampleVM (Some (ref "snapshot-1")) [] layoutTwoGiB.

Definition sampleIsNil (snapshotInfo : SnapshotInfo.t) : bool :=
  match SnapshotInfo.CurrentSnapshot snapshotInfo,
        SnapshotInfo.RootSnapshotList snapshotInfo with
  | None, [] => true
  | _, _ => false
  end.

(** The loop of [main] that builds one set per machine with snapshots,
    the thresholds passed in the order of the signature above. *)
Definition buildSnapshotSets `{Clock} (vmsWithSnapshots : list VirtualMachine.t)
  (ageCritical ageWarning sizeCritical sizeWarning : Z)
  : option SnapshotSummarySets.t :=
  forRange (fun vm snapshotSets =>
              match NewSnapshotSummarySet vm ageCritical ageWarning
                                          sizeCritical sizeWarning with
              | Some set => Some (snapshotSets ++ [set])
              | None => None
              end)
           vmsWithSnapshots [].

Module ResourcePool.
(** [mo.ResourcePool], of which only the number is read here. *)
Record t : Type := Build { Name : string }.
End ResourcePool.

(** *** Formatted output

    A call of [fmt.Sprintf] or [fmt.Fprintf] is kept as its format string
    and its arguments, in order; what is written to an [io.Writer] is the
    list of the calls made on it. *)

Inductive Arg : Type :=
| ArgString (s : string)
| ArgInt (z : Z).

Record Formatted : Type := Sprintf { format : string; args : list Arg }.

Definition len {A : Type} (l : list A) : Z := Z.of_nat (length l).

Section Reports.

(** Constants of the package declared outside the files at hand. *)
Variables (snapshotThresholdTypeAge snapshotThresholdTypeSize : string).
Variables (snapshotThresholdTypeAgeSuffix snapshotThresholdTypeSizeSuffix : string).

(** [SnapshotsAgeOneLineCheckSummary] *)
Definition SnapshotsAgeOneLineCheckSummary `{Clock} (stateLabel : string)
  (snapshotSets : SnapshotSummarySets.t)
  (snapshotsAgeCritical snapshotsAgeWarning : Z)
  (evaluatedVMs : list VirtualMachine.t) (rps : list ResourcePool.t)
  : Formatted :=
  if SnapshotSummarySets.IsAgeCriticalState snapshotSets then
    let '(vms, snapshots) :=
      SnapshotSummarySets.ExceedsAge snapshotSets snapshotsAgeCritical in
    Sprintf
      "%s: %d VMs with %d snapshots older than %d days detected (evaluated %d VMs, %d Snapshots, %d Resource Pools)"
      [ ArgString stateLabel; ArgInt vms; ArgInt snapshots;
        ArgInt snapshotsAgeCritical; ArgInt (len evaluatedVMs);
        ArgInt (SnapshotSummarySets.Snapshots snapshotSets); ArgInt (len rps) ]
  else if SnapshotSummarySets.IsAgeWarningState snapshotSets then
    let '(vms, snapshots) :=
      SnapshotSummarySets.ExceedsAge snapshotSets snapshotsAgeWarning in
    Sprintf
      "%s: %d VMs with %d snapshots older than %d days detected (evaluated %d VMs, %d Snapshots, %d Resource Pools)"
      [ ArgString stateLabel; ArgInt vms; ArgInt snapshots;
        ArgInt snapshotsAgeWarning; ArgInt (len evaluatedVMs);
        ArgInt (SnapshotSummarySets.Snapshots snapshotSets); ArgInt (len rps) ]
  else
    Sprintf
      "%s: No snapshots older than %d days detected (evaluated %d VMs, %d Snapshots, %d Resource Pools)"
      [ ArgString stateLabel; ArgInt snapshotsAgeWarning;
        ArgInt (len evaluatedVMs);
        ArgInt (SnapshotSummarySets.Snapshots snapshotSets); ArgInt (len rps) ].

(** [SnapshotsSizeOneLineCheckSummary] *)
Definition SnapshotsSizeOneLineCheckSummary (stateLabel : string)
  (snapshotSets : SnapshotSummarySets.t)
  (snapshotsSizeCritical snapshotsSizeWarning : Z)
  (evaluatedVMs : list VirtualMachine.t) (rps : list ResourcePool.t)
  : Formatted :=
  if SnapshotSummarySets.IsSizeCriticalState snapshotSets then
    let '(vms, snapshots) :=
      SnapshotSummarySets.ExceedsSize snapshotSets snapshotsSizeCritical in
    Sprintf
      "%s: %d VMs with combined snapshots (%d) exceeding %d %s detected (evaluated %d VMs, %d Snapshots, %d Resource Pools)"
      [ ArgString stateLabel; ArgInt vms; ArgInt snapshots;
        ArgInt snapshotsSizeCritical;
        ArgString snapshotThresholdTypeSizeSuffix; ArgInt (len evaluatedVMs);
        ArgInt (SnapshotSummarySets.Snapshots snapshotSets); ArgInt (len rps) ]
  else if SnapshotSummarySets.IsSizeWarningState snapshotSets then
    let '(vms, snapshots) :=
      SnapshotSummarySets.ExceedsSize snapshotSets snapshotsSizeWarning in
    Sprintf
      "%s: %d VMs with combined snapshots (%d) exceeding %d %s detected (evaluated %d VMs, %d Snapshots, %d Resource Pools)"
      [ ArgString stateLabel; ArgInt vms; ArgInt snapshots;
        ArgInt snapshotsSizeWarning;
        ArgString snapshotThresholdTypeSizeSuffix; ArgInt (len evaluatedVMs);
        ArgInt (SnapshotSummarySets.Snapshots snapshotSets); ArgInt (len rps) ]
  else
    Sprintf
      "%s: No VMs, each with combined snapshots exceeding %d %s detected (evaluated %d VMs, %d Snapshots, %d Resource Pools)"
      [ ArgString stateLabel; ArgInt snapshotsSizeWarning;
        ArgString snapshotThresholdTypeSizeSuffix; ArgInt (len evaluatedVMs);
        ArgInt (SnapshotSummarySets.Snapshots snapshotSets); ArgInt (len rps) ].

(** What [writeSnapshotsListEntries] writes: the two headers, one list
    entry per snapshot it prints (the line shows fields of the snapshot
    and the size of its set), and the line for an empty list. *)
Inductive ReportItem : Type :=
| ExceedingHeader (snapshotWarningThreshold snapshotCriticalThreshold : Z)
                  (unitSuffix unitName : string)
| NotYetExceedingHeader (unitName : string)
| ListEntry (snap : SnapshotSummary.t) (snapSet : SnapshotSummarySet.t)
| NoneDetected.

(** [for _, snapSet := range sets { for _, snap := range snapSet.Snapshots
    { if test snap { Fprintf(entry) } } }] *)
Definition writeSnapshotsWhere (test : SnapshotSummary.t -> bool)
  (w : list ReportItem) (snapshotSummarySets : SnapshotSummarySets.t)
  : list ReportItem :=
  foldl (fun w snapSet =>
           foldl (fun w snap =>
                    if test snap then w ++ [ListEntry snap snapSet] else w)
                 w (SnapshotSummarySet.Snapshots snapSet))
        w snapshotSummarySets.

(** [for _, snapSet := range sets { if test snapSet { for _, snap := range
    snapSet.Snapshots { Fprintf(entry) } } }] *)
Definition writeSetsWhere (test : SnapshotSummarySet.t -> bool)
  (w : list ReportItem) (snapshotSummarySets : SnapshotSummarySets.t)
  : list ReportItem :=
  foldl (fun w snapSet =>
           if test snapSet
           then foldl (fun w snap => w ++ [ListEntry snap snapSet])
                      w (SnapshotSummarySet.Snapshots snapSet)
           else w)
        w snapshotSummarySets.

(** [writeSnapshotsListEntries], the writer being the list [w]. *)
Definition writeSnapshotsListEntries `{Clock} (w : list ReportItem)
  (snapshotCriticalThreshold snapshotWarningThreshold : Z)
  (unitSuffix unitName : string)
  (snapshotSummarySets : SnapshotSummarySets.t) : list ReportItem :=
  let w := w ++ [ExceedingHeader snapshotWarningThreshold
                                 snapshotCriticalThreshold unitSuffix unitName] in
  let w :=
    if String.eqb unitName snapshotThresholdTypeAge
       && (SnapshotSummarySets.IsAgeCriticalState snapshotSummarySets
           || SnapshotSummarySets.IsAgeWarningState snapshotSummarySets)
    then writeSnapshotsWhere
           (fun snap => SnapshotSummary.IsAgeCriticalState snap
                        || SnapshotSummary.IsAgeWarningState snap)
           w snapshotSummarySets
    else if String.eqb unitName snapshotThresholdTypeSize
            && (SnapshotSummarySets.IsSizeCriticalState snapshotSummarySets
                || SnapshotSummarySets.IsSizeWarningState snapshotSummarySets)
    then writeSetsWhere
           (fun snapSet => SnapshotSummarySet.IsSizeWarningState snapSet
                           || SnapshotSummarySet.IsSizeCriticalState snapSet)
           w snapshotSummarySets
    else w ++ [NoneDetected] in
  let w := w ++ [NotYetExceedingHeader unitName] in
  if String.eqb unitName snapshotThresholdTypeAge
     && SnapshotSummarySets.HasNotYetExceededAge snapshotSummarySets
          snapshotWarningThreshold
  then writeSnapshotsWhere
         (fun snap => negb (SnapshotSummary.IsAgeCriticalState snap
                            || SnapshotSummary.IsAgeWarningState snap))
         w snapshotSummarySets
  else if String.eqb unitName snapshotThresholdTypeSize
          && SnapshotSummarySets.HasNotYetExceededSize snapshotSummarySets
               snapshotWarningThreshold
  then writeSetsWhere
         (fun snapSet => negb (SnapshotSummarySet.IsSizeWarningState snapSet
                               || SnapshotSummarySet.IsSizeCriticalState snapSet))
         w snapshotSummarySets
  else w ++ [NoneDetected].


Definition SnapshotsSizeReportEntries `{Clock}
  (snapshotSummarySets : SnapshotSummarySets.t)
  (snapshotsSizeCritical snapshotsSizeWarning : Z) : list ReportItem :=
  writeSnapshotsListEntries [] snapshotsSizeCritical snapshotsSizeWarning
    snapshotThresholdTypeSizeSuffix snapshotThresholdTypeSize snapshotSummarySets.

End Reports.

(** The snapshots of the list entries written, in order. *)
Definition listedSnapshots (w : list ReportItem) : list SnapshotSummary.t :=
  flat_map (fun item =>
              match item with
              | ListEntry snap _ => [snap]
              | _ => []
              end) w.

(** The layout and thresholds of the scenario as the walk holds them (the
    size attribution does not read the forest). *)
Definition scenarioEnv : CrawlEnv :=
  envOf "vm"
        {| SnapshotInfo.CurrentSnapshot := Some (ref "S2");
           SnapshotInfo.RootSnapshotList := [] |}
        scenarioLayout 60 30 20 10.

(** ** Virtual machine lists (file [vms.go]) *)

(** The two ways [FilterVMByName] and [FilterVMByID] fail. *)
Inductive FilterError : Type :=
| ErrEmptyList
| ErrNoMatch (wanted : string).

(** [FilterVMByName]: the first machine of that name. *)
Definition FilterVMByName (vms : list VirtualMachine.t) (vmName : string)
  : FilterError + VirtualMachine.t :=
  match vms with
  | [] => inl ErrEmptyList
  | _ :: _ =>
      match List.find (fun vm => String.eqb (VirtualMachine.Name vm) vmName) vms
      with
      | Some vm => inr vm
      | None => inl (ErrNoMatch vmName)
      end
  end.

Module types.
(** Values of [types.VirtualMachinePowerState]. *)
Definition VirtualMachinePowerStatePoweredOff : string := "poweredOff".
Definition VirtualMachinePowerStatePoweredOn : string := "poweredOn".
Definition VirtualMachinePowerStateSuspended : string := "suspended".
End types.

Section MoreFields.

(** Fields of [mo.VirtualMachine] that the record above does not carry:
    [vm.Summary.Vm], a pointer, and [vm.Runtime.PowerState]. *)
Variable SummaryVm : VirtualMachine.t -> option ManagedObjectReference.t.
Variable PowerState : VirtualMachine.t -> string.

(** The loop of [FilterVMByID]; reading [vm.Summary.Vm.Value] panics on
    a nil pointer. *)
Fixpoint findVMByID (vms : list VirtualMachine.t) (vmID : string)
  : option (FilterError + VirtualMachine.t) :=
  match vms with
  | [] => Some (inl (ErrNoMatch vmID))
  | vm :: rest =>
      match SummaryVm vm with
      | None => None
      | Some ref =>
          if String.eqb (ManagedObjectReference.Value ref) vmID
          then Some (inr vm)
          else findVMByID rest vmID
      end
  end.

Definition FilterVMByID (vms : list VirtualMachine.t) (vmID : string)
  : option (FilterError + VirtualMachine.t) :=
  match vms with
  | [] => Some (inl ErrEmptyList)
  | _ :: _ => findVMByID vms vmID
  end.

(** [FilterVMsByPowerState] *)
Definition FilterVMsByPowerState (vms : list VirtualMachine.t)
  (includePoweredOff : bool) : list VirtualMachine.t :=
  match vms with
  | [] => vms
  | _ :: _ =>
      foldl (fun filteredVMs vm =>
               if String.eqb (PowerState vm)
                             types.VirtualMachinePowerStatePoweredOn
               then filteredVMs ++ [vm]
               else if includePoweredOff
                       && String.eqb (PowerState vm)
                                     types.VirtualMachinePowerStatePoweredOff
               then filteredVMs ++ [vm]
               else filteredVMs)
            [] vms
  end.

(** [dedupeVMs] compacts the slice in place: the state of its loop is the
    backing array of [vmsList], the map [seen] and the index [j]. *)
Record DedupeState : Type := {
  backing : list VirtualMachine.t;
  seen : gset string;
  j : nat
}.

(** One iteration, at index [i] of the range: the element is read from
    the backing array as it is by then. *)
Definition dedupeStep (i : nat) (st : DedupeState) : option DedupeState :=
  match backing st !! i with
  | None => None
  | Some vm =>
      match SummaryVm vm with
      | None => None
      | Some ref =>
          if decide (ManagedObjectReference.Value ref ∈ seen st)
          then Some st
          else Some {| backing := <[j st := vm]> (backing st);
                       seen := {[ManagedObjectReference.Value ref]} ∪ seen st;
                       j := S (j st) |}
      end
  end.

Definition dedupeVMs (vmsList : list VirtualMachine.t)
  : option (list VirtualMachine.t) :=
  match forRange dedupeStep (seq 0 (length vmsList))
                 {| backing := vmsList; seen := ∅; j := 0 |} with
  | Some st => Some (take (j st) (backing st))
  | None => None
  end.

(** The machines of a list whose reference value was not met before. *)
Fixpoint keepFirst (met : gset string) (vms : list VirtualMachine.t)
  : list VirtualMachine.t :=
  match vms with
  | [] => []
  | vm :: rest =>
      match SummaryVm vm with
      | Some ref =>
          if decide (ManagedObjectReference.Value ref ∈ met)
          then keepFirst met rest
          else vm :: keepFirst ({[ManagedObjectReference.Value ref]} ∪ met) rest
      | None => keepFirst met rest
      end
  end.

(** The reference value of a machine, when it has one. *)
Definition vmValue (vm : VirtualMachine.t) : option string :=
  match SummaryVm vm with
  | Some ref => Some (ManagedObjectReference.Value ref)
  | None => None
  end.

End MoreFields.

(** ** Logging levels (file [logging.go]) *)

Module zerolog.
(** The levels of package [zerolog]. *)
Definition DebugLevel : Z := 0.
Definition InfoLevel : Z := 1.
Definition WarnLevel : Z := 2.
Definition ErrorLevel : Z := 3.
Definition FatalLevel : Z := 4.
Definition PanicLevel : Z := 5.
Definition Disabled : Z := 7.
Definition TraceLevel : Z := -1.
End zerolog.

Definition LogLevelDisabled : string := "disabled".
Definition LogLevelPanic : string := "panic".
Definition LogLevelFatal : string := "fatal".
Definition LogLevelError : string := "error".
Definition LogLevelWarn : string := "warn".
Definition LogLevelInfo : string := "info".
Definition LogLevelDebug : string := "debug".
Definition LogLevelTrace : string := "trace".

(** The map [loggingLevels] as [init] leaves it. *)
Definition loggingLevels : gmap string Z :=
  <[LogLevelTrace := zerolog.TraceLevel]>
  (<[LogLevelDebug := zerolog.DebugLevel]>
  (<[LogLevelInfo := zerolog.InfoLevel]>
  (<[LogLevelWarn := zerolog.WarnLevel]>
  (<[LogLevelError := zerolog.ErrorLevel]>
  (<[LogLevelFatal := zerolog.FatalLevel]>
  (<[LogLevelPanic := zerolog.PanicLevel]>
  (<[LogLevelDisabled := zerolog.Disabled]> ∅))))))).

(** [loggingLevels[key]], the zero level for a missing key. *)
Definition levelOf (key : string) : Z := default 0 (loggingLevels !! key).

(** [setLoggingLevel]: the global level after the call and the error
    returned, if any ([%v] prints a string as it is). *)
Definition setLoggingLevel (logLevel : string) (globalLevel : Z)
  : Z * option string :=
  if String.eqb logLevel LogLevelDisabled then (levelOf LogLevelDisabled, None)
  else if String.eqb logLevel LogLevelPanic then (levelOf LogLevelPanic, None)
  else if String.eqb logLevel LogLevelFatal then (levelOf LogLevelFatal, None)
  else if String.eqb logLevel LogLevelError then (levelOf LogLevelError, None)
  else if String.eqb logLevel LogLevelWarn then (levelOf LogLevelWarn, None)
  else if String.eqb logLevel LogLevelInfo then (levelOf LogLevelInfo, None)
  else if String.eqb logLevel LogLevelDebug then (levelOf LogLevelDebug, None)
  else if String.eqb logLevel LogLevelTrace then (levelOf LogLevelTrace, None)
  else (globalLevel, Some ("invalid option provided: " ++ logLevel)%string).

(** Two machines with the same reference value, for the examples. *)
Definition machineNamed (name value : string) : VirtualMachine.t :=
  {| VirtualMachine.Self :=
       {| ManagedObjectReference.Type_ := "VirtualMachine";
          ManagedObjectReference.Value := value |};
     VirtualMachine.Name := name;
     VirtualMachine.Snapshot := None;
     VirtualMachine.LayoutEx := None |}.

Definition selfAsSummaryVm (vm : VirtualMachine.t)
  : option ManagedObjectReference.t :=
  Some (VirtualMachine.Self vm).
(** * Properties *)

(** ** Machine arithmetic *)

Lemma wrap_in_range z : int64.in_range z -> int64.wrap z = z.
Proof.
  unfold int64.in_range, int64.min_int, int64.max_int, int64.wrap.
  intros Hz. rewrite Z.mod_small; lia.
Qed.

Lemma wrap_is_in_range z : int64.in_range (int64.wrap z).
Proof.
  unfold int64.in_range, int64.min_int, int64.max_int, int64.wrap.
  pose proof (Z.mod_pos_bound (z + 2 ^ 63) (2 ^ 64)). lia.
Qed.

Lemma wrap_add_l a b : int64.wrap (int64.wrap a + b) = int64.wrap (a + b).
Proof.
  unfold int64.wrap.
  replace ((a + 2 ^ 63) mod 2 ^ 64 - 2 ^ 63 + b + 2 ^ 63)
    with ((a + 2 ^ 63) mod 2 ^ 64 + b) by lia.
  rewrite Zplus_mod_idemp_l. f_equal. f_equal. lia.
Qed.

Lemma neg_exact n :
  int64.min_int < n <= int64.max_int -> int64.neg n = - n.
Proof.
  intros Hn. apply wrap_in_range.
  unfold int64.in_range, int64.min_int, int64.max_int in *. lia.
Qed.

Lemma GB_value : units.GB = 1024 ^ 3.
Proof. reflexivity. Qed.

Lemma sumZ_app l k : sumZ (l ++ k) = sumZ l + sumZ k.
Proof. induction l as [|x l IH]; simpl; lia. Qed.

Lemma sumZ_Permutation l k : l ≡ₚ k -> sumZ l = sumZ k.
Proof. induction 1; simpl; lia. Qed.

(** A loop [acc += f x] over a slice keeps the wrapped sum. *)
Lemma foldl_add_wrapped {A : Type} (f : A -> Z) (l : list A) (z : Z) :
  foldl (fun acc x => int64.add acc (f x)) (int64.wrap z) l
  = int64.wrap (z + sumZ (map f l)).
Proof.
  revert z. induction l as [|x l IH]; intros z; simpl.
  - f_equal. lia.
  - unfold int64.add at 2. rewrite wrap_add_l, IH. f_equal. lia.
Qed.

Lemma foldl_add_from_zero {A : Type} (f : A -> Z) (l : list A) :
  foldl (fun acc x => int64.add acc (f x)) 0 l = int64.wrap (sumZ (map f l)).
Proof. exact (foldl_add_wrapped f l 0). Qed.

(** ** Counting loops *)

Lemma countIf_cons {A : Type} (p : A -> bool) x l :
  countIf p (x :: l) = (if p x then 1 else 0) + countIf p l.
Proof. unfold countIf. simpl. destruct (p x); simpl; lia. Qed.

Lemma countIf_app {A : Type} (p : A -> bool) l k :
  countIf p (l ++ k) = countIf p l + countIf p k.
Proof.
  unfold countIf. rewrite List.filter_app, length_app. lia.
Qed.

Lemma countIf_nonneg {A : Type} (p : A -> bool) l : 0 <= countIf p l.
Proof. unfold countIf. lia. Qed.

Lemma countIf_pos_existsb {A : Type} (p : A -> bool) l :
  (countIf p l >=? 1) = existsb p l.
Proof.
  induction l as [|x l IH]; [reflexivity|].
  rewrite countIf_cons. simpl. pose proof (countIf_nonneg p l).
  destruct (p x); simpl.
  - apply Z.geb_le. lia.
  - exact IH.
Qed.

Lemma foldl_count {A : Type} (p : A -> bool) (l : list A) (n : Z) :
  foldl (fun acc x => if p x then acc + 1 else acc) n l = n + countIf p l.
Proof.
  revert n. induction l as [|x l IH]; intros n; simpl.
  - unfold countIf. simpl. lia.
  - rewrite IH, countIf_cons. destruct (p x); lia.
Qed.

Lemma set_ExceedsAge_count `{Clock} (set : SnapshotSummarySet.t) days :
  SnapshotSummarySet.ExceedsAge set days
  = countIf (fun snap => SnapshotSummary.IsAgeExceeded snap days)
            (SnapshotSummarySet.Snapshots set).
Proof. unfold SnapshotSummarySet.ExceedsAge. rewrite foldl_count. lia. Qed.

Lemma set_ExceedsSize_count (set : SnapshotSummarySet.t) sizeGB :
  SnapshotSummarySet.ExceedsSize set sizeGB
  = countIf (fun snap => SnapshotSummary.IsSizeExceeded snap sizeGB)
            (SnapshotSummarySet.Snapshots set).
Proof. unfold SnapshotSummarySet.ExceedsSize. rewrite foldl_count. lia. Qed.

Lemma set_Size_wrapped_sum (set : SnapshotSummarySet.t) :
  SnapshotSummarySet.Size set
  = int64.wrap (sumZ (map SnapshotSummary.Size (SnapshotSummarySet.Snapshots set))).
Proof. apply foldl_add_from_zero. Qed.

(** ** Size threshold *)

(** C7, as amended.  When the threshold in bytes [g * 1024^3] fits in an
    int64, [ExceedsSize s g] holds exactly when [s] is strictly greater
    than [g * 1024^3]; a size equal to the boundary is not exceeded, one
    byte more is. *)
Theorem ExceedsSize_binary_gigabyte (s g : Z) :
  int64.in_range (g * 1024 ^ 3) ->
  (ExceedsSize s g = true <-> s > g * 1024 ^ 3)
  /\ ExceedsSize (g * 1024 ^ 3) g = false
  /\ ExceedsSize (g * 1024 ^ 3 + 1) g = true.
Proof.
  intros Hg. unfold ExceedsSize, int64.mul.
  rewrite GB_value, (wrap_in_range _ Hg).
  repeat split.
  - intros Hs. apply Z.gtb_lt in Hs. lia.
  - intros Hs. apply Z.gtb_lt. lia.
  - rewrite Z.gtb_ltb. apply Z.ltb_irrefl.
  - apply Z.gtb_lt. lia.
Qed.

(** The boundary at a threshold of 3 GB. *)
Lemma ExceedsSize_binary_gigabyte_witness :
  int64.in_range (3 * 1024 ^ 3)
  /\ ((ExceedsSize (5 * 1024 ^ 3) 3 = true <-> 5 * 1024 ^ 3 > 3 * 1024 ^ 3)
      /\ ExceedsSize (3 * 1024 ^ 3) 3 = false
      /\ ExceedsSize (3 * 1024 ^ 3 + 1) 3 = true).
Proof.
  assert (Hr : int64.in_range (3 * 1024 ^ 3)).
  { unfold int64.in_range, int64.min_int, int64.max_int. lia. }
  split; [exact Hr | apply (ExceedsSize_binary_gigabyte (5 * 1024 ^ 3) 3 Hr)].
Defined.

(** C7, as stated, fails: a threshold of [2^33] GB is [2^63] bytes, which
    wraps to the least int64, so that a size of zero bytes exceeds it. *)
Lemma ExceedsSize_overflow_counterexample :
  ExceedsSize 0 (2 ^ 33) = true /\ ~ (0 > 2 ^ 33 * 1024 ^ 3).
Proof. split; [reflexivity | lia]. Qed.

(** ** Age threshold *)

Lemma ExceedsAge_Before `{Clock} (t : time.Time) (N : Z) :
  ExceedsAge t N = time.Before t (ageThreshold N).
Proof.
  unfold ExceedsAge.
  destruct (time.Before t (ageThreshold N)); [reflexivity|].
  destruct (time.Equal t (ageThreshold N)); [reflexivity|].
  destruct (time.After t (ageThreshold N)); reflexivity.
Qed.

(** The threshold is [now.AddDate(0, 0, -N)] for every day count whose
    negation is an [int]. *)
Lemma ageThreshold_minus_days `{Clock} (N : Z) :
  int64.min_int < N <= int64.max_int ->
  ageThreshold N = AddDate Now 0 0 (- N).
Proof. intros HN. unfold ageThreshold. by rewrite neg_exact. Qed.

(** C6, as amended.  On a clock whose days are of 24 hours for every day
    count of magnitude up to [R], [R] being an [int], and for every day
    count [N] of magnitude up to [R]: [ExceedsAge t N] holds exactly when
    [t] is strictly before the instant [N] days before now; a creation
    time equal to that instant is not exceeded, the instant before it
    is. *)
Theorem ExceedsAge_strictly_before `{Clock} (R : Z) (t : time.Time) (N : Z) :
  time.wholeDays R -> R <= int64.max_int -> - R <= N <= R ->
  (ExceedsAge t N = true <-> t < Now - N * time.nsPerDay)
  /\ ExceedsAge (Now - N * time.nsPerDay) N = false
  /\ ExceedsAge (Now - N * time.nsPerDay - 1) N = true.
Proof.
  intros Hdays HR HN.
  assert (Hthreshold : ageThreshold N = Now - N * time.nsPerDay).
  { rewrite ageThreshold_minus_days
      by (unfold int64.min_int, int64.max_int in *; lia).
    rewrite Hdays by lia. lia. }
  rewrite !ExceedsAge_Before, Hthreshold. unfold time.Before.
  repeat split.
  - apply Z.ltb_lt.
  - apply Z.ltb_lt.
  - apply Z.ltb_irrefl.
  - apply Z.ltb_lt. lia.
Qed.

(** Read in UTC at day 1000, with day counts up to a century: a snapshot
    of 40 days against a threshold of 30 days. *)
Lemma ExceedsAge_strictly_before_witness :
  let clock := time.utcClock scenarioNow in
  time.wholeDays 36500
  /\ 36500 <= int64.max_int
  /\ - 36500 <= 30 <= 36500
  /\ ((ExceedsAge (scenarioNow - 40 * time.nsPerDay) 30 = true
       <-> scenarioNow - 40 * time.nsPerDay < Now - 30 * time.nsPerDay)
      /\ ExceedsAge (Now - 30 * time.nsPerDay) 30 = false
      /\ ExceedsAge (Now - 30 * time.nsPerDay - 1) 30 = true).
Proof.
  intros clock.
  assert (Hdays : time.wholeDays 36500) by (intros days _; reflexivity).
  assert (HR : 36500 <= int64.max_int) by (unfold int64.max_int; lia).
  assert (HN : - 36500 <= 30 <= 36500) by lia.
  split; [exact Hdays|]. split; [exact HR|]. split; [exact HN|].
  exact (ExceedsAge_strictly_before 36500 (scenarioNow - 40 * time.nsPerDay)
           30 Hdays HR HN).
Defined.

(** C6, as stated, fails at the least [int]: its negation wraps to
    itself, so that the threshold asked of the calendar is [2^63] days
    from now into the past and not into the future, and a creation time
    after now, which is before now minus [N] days, is not exceeded. *)
Lemma ExceedsAge_least_int_counterexample :
  let clock := time.utcClock scenarioNow in
  int64.neg int64.min_int = int64.min_int
  /\ ExceedsAge (scenarioNow + 1) int64.min_int = false
  /\ scenarioNow + 1 < scenarioNow - int64.min_int * time.nsPerDay.
Proof.
  intros clock. split; [reflexivity|]. split; [reflexivity|].
  unfold scenarioNow, int64.min_int, time.nsPerDay. lia.
Qed.

(** In UTC the boundary is [N] times 24 hours before now: a snapshot
    created exactly 30 days ago does not exceed 30 days, one created a
    second earlier does. *)
Example ExceedsAge_thirty_days :
  let now := 1000 * time.nsPerDay in
  let _ := time.utcClock now in
  ExceedsAge (now - 30 * time.nsPerDay) 30 = false
  /\ ExceedsAge (now - 30 * time.nsPerDay - 1000000000) 30 = true.
Proof. split; reflexivity. Qed.

(** ** Aggregation *)

Lemma existsb_existsb_someSnapshot (p : SnapshotSummary.t -> bool) sss :
  existsb (fun set => existsb p (SnapshotSummarySet.Snapshots set)) sss = true
  <-> someSnapshot p sss.
Proof.
  unfold someSnapshot. rewrite existsb_exists. split.
  - intros (set & Hset & Hex). apply existsb_exists in Hex as (snap & Hsnap & Hp).
    eauto.
  - intros (set & snap & Hset & Hsnap & Hp). exists set. split; [done|].
    apply existsb_exists. eauto.
Qed.

Lemma IsCriticalState_iff sss :
  SnapshotSummarySets.IsCriticalState sss = true
  <-> someSnapshot (fun snap => SnapshotSummary.ageCriticalState snap
                               || SnapshotSummary.sizeCriticalState snap) sss.
Proof. apply existsb_existsb_someSnapshot. Qed.

Lemma IsWarningState_iff sss :
  SnapshotSummarySets.IsWarningState sss = true
  <-> someSnapshot (fun snap => SnapshotSummary.ageWarningState snap
                               || SnapshotSummary.sizeWarningState snap) sss.
Proof. apply existsb_existsb_someSnapshot. Qed.

Lemma IsAgeCriticalState_iff sss :
  SnapshotSummarySets.IsAgeCriticalState sss = true
  <-> someSnapshot SnapshotSummary.ageCriticalState sss.
Proof. apply existsb_existsb_someSnapshot. Qed.

Lemma IsAgeWarningState_iff sss :
  SnapshotSummarySets.IsAgeWarningState sss = true
  <-> someSnapshot SnapshotSummary.ageWarningState sss.
Proof. apply existsb_existsb_someSnapshot. Qed.

(** C9, as amended.  [IsCriticalState] (resp. [IsWarningState]) holds
    exactly when some snapshot of some set has its age or size critical
    (resp. warning) flag set.  The verdict of the age check goes by the
    age flags alone, critical before warning before ok: critical exactly
    when some snapshot is age-critical, whatever the other sets are;
    warning exactly when none is age-critical and some is age-warning; ok
    otherwise. *)
Theorem age_verdict_precedence (sss : SnapshotSummarySets.t) :
  (SnapshotSummarySets.IsCriticalState sss = true
   <-> someSnapshot (fun snap => SnapshotSummary.ageCriticalState snap
                                || SnapshotSummary.sizeCriticalState snap) sss)
  /\ (SnapshotSummarySets.IsWarningState sss = true
      <-> someSnapshot (fun snap => SnapshotSummary.ageWarningState snap
                                   || SnapshotSummary.sizeWarningState snap) sss)
  /\ (ExitStatusCode sss = nagios.StateCRITICALExitCode
      <-> someSnapshot SnapshotSummary.ageCriticalState sss)
  /\ (ExitStatusCode sss = nagios.StateWARNINGExitCode
      <-> ~ someSnapshot SnapshotSummary.ageCriticalState sss
          /\ someSnapshot SnapshotSummary.ageWarningState sss)
  /\ (ExitStatusCode sss = nagios.StateOKExitCode
      <-> ~ someSnapshot SnapshotSummary.ageCriticalState sss
          /\ ~ someSnapshot SnapshotSummary.ageWarningState sss).
Proof.
  split; [apply IsCriticalState_iff|].
  split; [apply IsWarningState_iff|].
  rewrite <- IsAgeCriticalState_iff, <- IsAgeWarningState_iff.
  unfold ExitStatusCode.
  destruct (SnapshotSummarySets.IsAgeCriticalState sss);
    destruct (SnapshotSummarySets.IsAgeWarningState sss);
    cbv [nagios.StateCRITICALExitCode nagios.StateWARNINGExitCode
         nagios.StateOKExitCode];
    repeat split; try discriminate; try tauto; try congruence;
    intros [? ?]; congruence.
Qed.

(** C9, as stated, fails: with one set holding a size-critical snapshot
    and another holding a snapshot that is only age-warning, the
    collection is in a critical state and the age check reports warning. *)
Lemma age_verdict_ignores_size_counterexample :
  let sss := [ sampleSet [sampleSummary 0 false false true true] true true;
               sampleSet [sampleSummary 0 true false false false] false false ] in
  SnapshotSummarySets.IsCriticalState sss = true
  /\ ExitStatusCode sss = nagios.StateWARNINGExitCode
  /\ ExitStatusCode sss <> nagios.StateCRITICALExitCode.
Proof. repeat split. discriminate. Qed.

(** C10.  A set without snapshots has size zero and is in none of the
    warning, critical, age-warning and age-critical states; the empty
    collection is in no state at all, and the age check reports ok. *)
Theorem empty_is_ok (set : SnapshotSummarySet.t) :
  SnapshotSummarySet.Snapshots set = [] ->
  (SnapshotSummarySet.Size set = 0
   /\ SnapshotSummarySet.IsWarningState set = false
   /\ SnapshotSummarySet.IsCriticalState set = false
   /\ SnapshotSummarySet.IsAgeWarningState set = false
   /\ SnapshotSummarySet.IsAgeCriticalState set = false)
  /\ (SnapshotSummarySets.IsWarningState [] = false
      /\ SnapshotSummarySets.IsCriticalState [] = false
      /\ SnapshotSummarySets.IsAgeWarningState [] = false
      /\ SnapshotSummarySets.IsAgeCriticalState [] = false
      /\ SnapshotSummarySets.IsSizeWarningState [] = false
      /\ SnapshotSummarySets.IsSizeCriticalState [] = false
      /\ ExitStatusCode [] = nagios.StateOKExitCode).
Proof.
  intros Hempty.
  unfold SnapshotSummarySet.Size, SnapshotSummarySet.IsWarningState,
    SnapshotSummarySet.IsCriticalState, SnapshotSummarySet.IsAgeWarningState,
    SnapshotSummarySet.IsAgeCriticalState.
  rewrite Hempty. repeat split.
Qed.

(** A set without snapshots whose stored size flags are both set. *)
Lemma empty_is_ok_witness :
  let set := sampleSet [] true true in
  SnapshotSummarySet.Snapshots set = []
  /\ SnapshotSummarySet.Size set = 0
  /\ SnapshotSummarySet.IsCriticalState set = false
  /\ ExitStatusCode [] = nagios.StateOKExitCode.
Proof.
  intros set.
  destruct (empty_is_ok set eq_refl) as [(Hsize & _ & Hcrit & _) Hcoll].
  split; [reflexivity|].
  split; [exact Hsize|].
  split; [exact Hcrit | apply Hcoll].
Defined.

(** ** Counts of sets and snapshots over a threshold *)

Lemma sets_ExceedsAge_fold `{Clock} (sss : SnapshotSummarySets.t) days a b :
  foldl (fun '(setsExceeded, snapshotsExceeded) set =>
           if SnapshotSummarySet.ExceedsAge set days >=? 1
           then (setsExceeded + 1,
                 snapshotsExceeded + SnapshotSummarySet.ExceedsAge set days)
           else (setsExceeded, snapshotsExceeded))
        (a, b) sss
  = (a + countIf (fun set =>
                    existsb (fun snap => SnapshotSummary.IsAgeExceeded snap days)
                            (SnapshotSummarySet.Snapshots set)) sss,
     b + countIf (fun snap => SnapshotSummary.IsAgeExceeded snap days)
                 (allSnapshots sss)).
Proof.
  revert a b. induction sss as [|set sss IH]; intros a b; simpl.
  - unfold countIf. simpl. f_equal; lia.
  - rewrite set_ExceedsAge_count, countIf_pos_existsb.
    rewrite countIf_cons, countIf_app.
    destruct (existsb _ (SnapshotSummarySet.Snapshots set)) eqn:Hex.
    + rewrite IH. f_equal; lia.
    + rewrite IH. rewrite <- countIf_pos_existsb in Hex.
      rewrite Z.geb_leb in Hex. apply Z.leb_gt in Hex.
      pose proof (countIf_nonneg
        (fun snap => SnapshotSummary.IsAgeExceeded snap days)
        (SnapshotSummarySet.Snapshots set)).
      f_equal; lia.
Qed.

Lemma sets_ExceedsSize_fold (sss : SnapshotSummarySets.t) sizeGB a b :
  foldl (fun '(numSetsExceeded, numSnapshotsExceeded) set =>
           if SnapshotSummarySet.Size set >? int64.mul sizeGB units.GB
           then (numSetsExceeded + 1,
                 numSnapshotsExceeded
                 + Z.of_nat (length (SnapshotSummarySet.Snapshots set)))
           else (numSetsExceeded, numSnapshotsExceeded))
        (a, b) sss
  = (a + countIf (fun set => ExceedsSize (SnapshotSummarySet.Size set) sizeGB) sss,
     b + Z.of_nat (length (allSnapshots
           (List.filter
              (fun set => ExceedsSize (SnapshotSummarySet.Size set) sizeGB)
              sss)))).
Proof.
  revert a b. induction sss as [|set sss IH]; intros a b; simpl.
  - unfold countIf. simpl. f_equal; lia.
  - rewrite countIf_cons. fold (ExceedsSize (SnapshotSummarySet.Size set) sizeGB).
    destruct (ExceedsSize (SnapshotSummarySet.Size set) sizeGB); rewrite IH.
    + simpl. rewrite length_app. f_equal; lia.
    + f_equal; lia.
Qed.

(** C5, as amended.  [ExceedsSize] returns the number of sets whose
    cumulative size exceeds the threshold and the number of snapshots held
    by those sets; [ExceedsAge] returns the number of sets with at least
    one snapshot over the age threshold and the number of snapshots, over
    all sets, that are over it. *)
Theorem sets_exceed_counts `{Clock} (sss : SnapshotSummarySets.t)
  (sizeGB days : Z) :
  SnapshotSummarySets.ExceedsSize sss sizeGB
  = (countIf (fun set => ExceedsSize (SnapshotSummarySet.Size set) sizeGB) sss,
     Z.of_nat (length (allSnapshots
       (List.filter (fun set => ExceedsSize (SnapshotSummarySet.Size set) sizeGB)
                    sss))))
  /\ SnapshotSummarySets.ExceedsAge sss days
     = (countIf (fun set =>
                   existsb (fun snap => SnapshotSummary.IsAgeExceeded snap days)
                           (SnapshotSummarySet.Snapshots set)) sss,
        countIf (fun snap => SnapshotSummary.IsAgeExceeded snap days)
                (allSnapshots sss)).
Proof.
  split.
  - unfold SnapshotSummarySets.ExceedsSize. by rewrite sets_ExceedsSize_fold.
  - unfold SnapshotSummarySets.ExceedsAge. by rewrite sets_ExceedsAge_fold.
Qed.

(** C5, as stated, fails: a set of two snapshots of 1 GiB each exceeds a
    threshold of 1 GB as a whole, and [ExceedsSize] counts its two
    snapshots, none of which crosses the threshold. *)
Lemma ExceedsSize_counts_members_counterexample :
  let sss := [ sampleSet [ sampleSummary (1024 ^ 3) false false false false;
                           sampleSummary (1024 ^ 3) false false false false ]
                         true false ] in
  SnapshotSummarySets.ExceedsSize sss 1 = (1, 2)
  /\ countIf (fun snap => SnapshotSummary.IsSizeExceeded snap 1)
             (allSnapshots sss) = 0
  /\ snd (SnapshotSummarySets.ExceedsSize sss 1)
     <> countIf (fun snap => SnapshotSummary.IsSizeExceeded snap 1)
                (allSnapshots sss).
Proof. repeat split. discriminate. Qed.

(** ** Collecting the file keys of a node *)

Lemma foldl_append_FileKey links keys :
  foldl (fun keys link => keys ++ DiskUnit.FileKey link) keys links
  = keys ++ flat_map DiskUnit.FileKey links.
Proof.
  revert keys. induction links as [|link links IH]; intros keys; simpl.
  - by rewrite app_nil_r.
  - by rewrite IH, app_assoc.
Qed.

Lemma appendChainFileKeys_app keys disks :
  appendChainFileKeys keys disks = keys ++ chainFileKeys disks.
Proof.
  unfold appendChainFileKeys, chainFileKeys. revert keys.
  induction disks as [|disk disks IH]; intros keys; simpl.
  - by rewrite app_nil_r.
  - by rewrite IH, foldl_append_FileKey, app_assoc.
Qed.

Lemma vmAllDiskFileKeys_chains layoutEx :
  vmAllDiskFileKeys layoutEx = chainFileKeys (FileLayoutEx.Disk layoutEx).
Proof. unfold vmAllDiskFileKeys. by rewrite appendChainFileKeys_app. Qed.

Lemma collectFileKeys_fold snapLayouts snapshot parent a b :
  foldl (fun '(snapshotDiskFileKeys, parentSnapshotDiskFileKeys) snapLayout =>
           let snapshotDiskFileKeys :=
             if sameValue (SnapshotLayout.Key snapLayout) snapshot
             then appendChainFileKeys
                    (snapshotDiskFileKeys ++ [SnapshotLayout.DataKey snapLayout])
                    (SnapshotLayout.Disk snapLayout)
             else snapshotDiskFileKeys in
           let parentSnapshotDiskFileKeys :=
             match parent with
             | Some parent =>
                 if sameValue (SnapshotLayout.Key snapLayout) parent
                 then appendChainFileKeys parentSnapshotDiskFileKeys
                        (SnapshotLayout.Disk snapLayout)
                 else parentSnapshotDiskFileKeys
             | None => parentSnapshotDiskFileKeys
             end in
           (snapshotDiskFileKeys, parentSnapshotDiskFileKeys))
        (a, b) snapLayouts
  = (a ++ thisSnapshotKeys snapLayouts snapshot,
     b ++ parentDiskKeys snapLayouts parent).
Proof.
  revert a b. induction snapLayouts as [|sl snapLayouts IH]; intros a b.
  - simpl. destruct parent; simpl; by rewrite !app_nil_r.
  - cbn [foldl]. rewrite IH. clear IH.
    unfold thisSnapshotKeys, parentDiskKeys, snapshotChainKeys, layoutsOf.
    cbn [List.filter].
    rewrite !appendChainFileKeys_app.
    f_equal.
    + destruct (sameValue (SnapshotLayout.Key sl) snapshot); [|done].
      cbn [flat_map]. rewrite <- !app_assoc. reflexivity.
    + destruct parent as [p|]; [|done].
      destruct (sameValue (SnapshotLayout.Key sl) p); [|done].
      cbn [flat_map]. by rewrite <- !app_assoc.
Qed.

(** The loop over the snapshot layouts yields this-snapshot-keys and
    parent-disk-keys. *)
Lemma collectFileKeys_spec snapLayouts snapshot parent :
  collectFileKeys snapLayouts snapshot parent
  = (thisSnapshotKeys snapLayouts snapshot, parentDiskKeys snapLayouts parent).
Proof. unfold collectFileKeys. by rewrite collectFileKeys_fold. Qed.

Lemma thisSnapshotKeys_Permutation snapLayouts snapshot :
  thisSnapshotKeys snapLayouts snapshot
  ≡ₚ snapshotChainKeys snapLayouts snapshot
     ++ snapshotDataKeys snapLayouts snapshot.
Proof.
  unfold thisSnapshotKeys, snapshotChainKeys, snapshotDataKeys.
  induction (layoutsOf snapLayouts snapshot) as [|sl l IH]; [done|].
  cbn [flat_map map]. rewrite IH.
  match goal with
  | |- _ ≡ₚ ?pre ++ ?x :: ?post => rewrite <- (Permutation_middle pre post x)
  end.
  simpl. constructor. by rewrite app_assoc.
Qed.

(** ** Removing keys *)

Lemma removeFileKey_In l key :
  In key l -> l ≡ₚ key :: removeFileKey l key.
Proof.
  induction l as [|k l IH]; intros Hin; [destruct Hin|].
  simpl. destruct (Z.eqb_spec k key) as [->|Hne]; [done|].
  destruct Hin as [Heq|Hin]; [congruence|].
  rewrite (IH Hin) at 1. apply perm_swap.
Qed.

Lemma removeFileKey_not_In l key :
  ~ In key l -> removeFileKey l key = l.
Proof.
  induction l as [|k l IH]; intros Hnin; [done|].
  simpl. destruct (Z.eqb_spec k key) as [->|Hne].
  - exfalso. apply Hnin. by left.
  - f_equal. apply IH. intros Hin. apply Hnin. by right.
Qed.

(** Removing, one by one, keys that are all there leaves the rest. *)
Lemma removeFileKeys_Permutation keys l rest :
  l ≡ₚ keys ++ rest -> removeFileKeys l keys ≡ₚ rest.
Proof.
  unfold removeFileKeys. revert l.
  induction keys as [|key keys IH]; intros l Hl; [done|].
  cbn [foldl]. apply IH.
  assert (Hin : In key l).
  { eapply Permutation_in; [symmetry; exact Hl | by left]. }
  apply (Permutation_cons_inv (a := key)).
  by rewrite <- (removeFileKey_In l key Hin).
Qed.

Lemma count_occ_removeFileKey l key k :
  count_occ Z.eq_dec (removeFileKey l key) k
  = if Z.eq_dec key k
    then Nat.pred (count_occ Z.eq_dec l k)
    else count_occ Z.eq_dec l k.
Proof.
  induction l as [|x l IH]; simpl.
  - by destruct (Z.eq_dec key k).
  - destruct (Z.eqb_spec x key) as [->|Hne].
    + destruct (Z.eq_dec key k); simpl; [done|].
      by destruct (Z.eq_dec key k).
    + simpl. rewrite IH.
      destruct (Z.eq_dec x k) as [->|Hxk]; destruct (Z.eq_dec key k);
        done || congruence.
Qed.

(** The list left by the removals is the difference of the two lists
    counted with multiplicity. *)
Lemma count_occ_removeFileKeys keys l k :
  count_occ Z.eq_dec (removeFileKeys l keys) k
  = (count_occ Z.eq_dec l k - count_occ Z.eq_dec keys k)%nat.
Proof.
  unfold removeFileKeys. revert l.
  induction keys as [|key keys IH]; intros l; cbn [foldl].
  - simpl. lia.
  - rewrite IH, count_occ_removeFileKey. simpl.
    destruct (Z.eq_dec key k); lia.
Qed.

Lemma removeFileKey_sublist l key : sublist (removeFileKey l key) l.
Proof.
  induction l as [|k l IH]; simpl; [done|].
  destruct (k =? key).
  - by apply sublist_cons.
  - by apply sublist_skip.
Qed.

Lemma removeFileKeys_sublist keys l : sublist (removeFileKeys l keys) l.
Proof.
  unfold removeFileKeys. revert l.
  induction keys as [|key keys IH]; intros l; cbn [foldl]; [done|].
  etrans; [apply IH | apply removeFileKey_sublist].
Qed.

Lemma removeFileKey_NoDup l key :
  NoDup l ->
  removeFileKey l key = List.filter (fun k => negb (k =? key)) l.
Proof.
  induction l as [|x l IH]; intros Hnd; [done|].
  inversion Hnd as [|? ? Hx Hnd']; subst.
  simpl. destruct (Z.eqb_spec x key) as [->|Hne]; simpl.
  - rewrite <- (IH Hnd'), removeFileKey_not_In; [done|].
    by rewrite <- list_elem_of_In.
  - by rewrite (IH Hnd').
Qed.

(** Without repeated keys in the first list, the removals are the set
    difference. *)
Lemma removeFileKeys_NoDup keys l :
  NoDup l ->
  removeFileKeys l keys
  = List.filter (fun k => negb (existsb (Z.eqb k) keys)) l.
Proof.
  unfold removeFileKeys. revert l.
  induction keys as [|key keys IH]; intros l Hnd; cbn [foldl].
  - simpl. clear Hnd. induction l as [|x l IHl]; [done|]. simpl. by f_equal.
  - rewrite IH
      by (eapply sublist_NoDup; [exact Hnd | apply removeFileKey_sublist]).
    rewrite (removeFileKey_NoDup l key Hnd). clear IH Hnd.
    induction l as [|x l IHl]; [done|].
    cbn [List.filter existsb].
    destruct (x =? key); cbn [negb orb List.filter]; [done|].
    destruct (existsb (Z.eqb x) keys); cbn [negb]; by rewrite IHl.
Qed.

(** ** Size attribution *)

Lemma addFileSizes_wrapped m z keys :
  addFileSizes m (int64.wrap z) keys
  = int64.wrap (z + sumZ (map (fileSize m) keys)).
Proof. apply foldl_add_wrapped. Qed.

Lemma addFileSizes_from_zero m keys :
  addFileSizes m 0 keys = int64.wrap (sumZ (map (fileSize m) keys)).
Proof. apply foldl_add_from_zero. Qed.

(** The size of a node, with the collected keys named. *)
Lemma snapshotSizeOf_unfold env current parent snapshot :
  snapshotSizeOf env current parent snapshot
  = attributedSize (fileKeyMap (envLayoutEx env))
      (vmAllDiskFileKeys (envLayoutEx env)) parent
      (thisSnapshotKeys (FileLayoutEx.Snapshot (envLayoutEx env)) snapshot)
      (parentDiskKeys (FileLayoutEx.Snapshot (envLayoutEx env)) parent)
      (sameValue snapshot current).
Proof. unfold snapshotSizeOf. by rewrite collectFileKeys_spec. Qed.

(** A root node that is not active, with the attached disk keys as its
    chain keys, is left with its data file keys. *)
Lemma root_snapshot_size (env : CrawlEnv)
  (current snapshot : ManagedObjectReference.t) :
  sameValue snapshot current = false ->
  snapshotChainKeys (FileLayoutEx.Snapshot (envLayoutEx env)) snapshot
    ≡ₚ vmAllDiskFileKeys (envLayoutEx env) ->
  snapshotSizeOf env current None snapshot
  = int64.wrap (sumZ (map (fileSize (fileKeyMap (envLayoutEx env)))
       (snapshotDataKeys (FileLayoutEx.Snapshot (envLayoutEx env)) snapshot))).
Proof.
  intros Hinactive Hchains.
  rewrite snapshotSizeOf_unfold, Hinactive.
  unfold attributedSize, pruneFileKeys.
  rewrite addFileSizes_from_zero. f_equal.
  apply sumZ_Permutation, Permutation_map.
  apply removeFileKeys_Permutation.
  by rewrite thisSnapshotKeys_Permutation, Hchains.
Qed.

(** With a single layout entry the attributed size is the size of its
    data file. *)
Lemma root_snapshot_single_layout (env : CrawlEnv)
  (current snapshot : ManagedObjectReference.t) (snapLayout : SnapshotLayout.t) :
  sameValue snapshot current = false ->
  layoutsOf (FileLayoutEx.Snapshot (envLayoutEx env)) snapshot = [snapLayout] ->
  chainFileKeys (SnapshotLayout.Disk snapLayout)
    ≡ₚ vmAllDiskFileKeys (envLayoutEx env) ->
  int64.in_range (fileSize (fileKeyMap (envLayoutEx env))
                           (SnapshotLayout.DataKey snapLayout)) ->
  snapshotSizeOf env current None snapshot
  = fileSize (fileKeyMap (envLayoutEx env)) (SnapshotLayout.DataKey snapLayout).
Proof.
  intros Hinactive Hone Hchains Hrange.
  rewrite root_snapshot_size; [|done|].
  - unfold snapshotDataKeys. rewrite Hone. simpl.
    rewrite Z.add_0_r. by apply wrap_in_range.
  - unfold snapshotChainKeys. rewrite Hone. simpl. by rewrite app_nil_r.
Qed.

(** Non-negative numbers with a sum of zero are all zero. *)
Lemma sumZ_zero_iff (l : list Z) :
  List.Forall (fun z => 0 <= z) l ->
  sumZ l = 0 <-> List.Forall (fun z => z = 0) l.
Proof.
  induction 1 as [|z l Hz Hl IH]; simpl.
  - split; [constructor | reflexivity].
  - assert (Hsum : 0 <= sumZ l).
    { clear IH. induction Hl as [|y l Hy _ IHl]; simpl; lia. }
    split.
    + intros Hzero. constructor; [lia|]. apply IH. lia.
    + intros Hall. inversion Hall as [|? ? -> Hrest]; subst.
      apply IH in Hrest. lia.
Qed.

(** C3, as amended.  For a root node that is not the active snapshot and
    whose disk chains hold the very file keys of the disks attached to the
    machine, the attributed size is the size of the snapshot's data
    files: what the layout index records for the [DataKey] of its layout
    entries, summed as an int64.  It is zero for a node without layout
    entry; and where the recorded sizes are not negative and their sum is
    an int64, it is zero exactly when each of them is zero. *)
Theorem root_snapshot_keeps_data_file (env : CrawlEnv)
  (current snapshot : ManagedObjectReference.t) :
  sameValue snapshot current = false ->
  snapshotChainKeys (FileLayoutEx.Snapshot (envLayoutEx env)) snapshot
    ≡ₚ vmAllDiskFileKeys (envLayoutEx env) ->
  let dataSizes :=
    map (fileSize (fileKeyMap (envLayoutEx env)))
        (snapshotDataKeys (FileLayoutEx.Snapshot (envLayoutEx env)) snapshot) in
  snapshotSizeOf env current None snapshot = int64.wrap (sumZ dataSizes)
  /\ (layoutsOf (FileLayoutEx.Snapshot (envLayoutEx env)) snapshot = [] ->
      snapshotSizeOf env current None snapshot = 0)
  /\ (List.Forall (fun size => 0 <= size) dataSizes ->
      int64.in_range (sumZ dataSizes) ->
      (snapshotSizeOf env current None snapshot = 0
       <-> List.Forall (fun size => size = 0) dataSizes)).
Proof.
  intros Hinactive Hchains dataSizes.
  pose proof (root_snapshot_size env current snapshot Hinactive Hchains)
    as Hsize.
  fold dataSizes in Hsize.
  split; [exact Hsize|]. split.
  - intros Hnone. rewrite Hsize. unfold dataSizes, snapshotDataKeys.
    rewrite Hnone. reflexivity.
  - intros Hpos Hrange. rewrite Hsize, (wrap_in_range _ Hrange).
    by apply sumZ_zero_iff.
Qed.

(** The root snapshot [snapshot-1] of the sample machine: its data file
    has 100 bytes, and so its size is not zero. *)
Lemma root_snapshot_keeps_data_file_witness :
  let dataSizes :=
    map (fileSize (fileKeyMap (envLayoutEx envRoot)))
        (snapshotDataKeys (FileLayoutEx.Snapshot (envLayoutEx envRoot))
                          (ref "snapshot-1")) in
  sameValue (ref "snapshot-1") (ref "snapshot-2") = false
  /\ snapshotChainKeys (FileLayoutEx.Snapshot (envLayoutEx envRoot))
                       (ref "snapshot-1")
     ≡ₚ vmAllDiskFileKeys (envLayoutEx envRoot)
  /\ List.Forall (fun size => 0 <= size) dataSizes
  /\ int64.in_range (sumZ dataSizes)
  /\ snapshotSizeOf envRoot (ref "snapshot-2") None (ref "snapshot-1")
     = int64.wrap (sumZ dataSizes)
  /\ (snapshotSizeOf envRoot (ref "snapshot-2") None (ref "snapshot-1") = 0
      <-> List.Forall (fun size => size = 0) dataSizes).
Proof.
  intros dataSizes.
  assert (Hinactive : sameValue (ref "snapshot-1") (ref "snapshot-2") = false)
    by reflexivity.
  assert (Hchains :
    snapshotChainKeys (FileLayoutEx.Snapshot (envLayoutEx envRoot))
                      (ref "snapshot-1")
    ≡ₚ vmAllDiskFileKeys (envLayoutEx envRoot))
    by (vm_compute; apply Permutation_refl).
  assert (Hsizes : dataSizes = [100]) by (by vm_compute).
  assert (Hpos : List.Forall (fun size => 0 <= size) dataSizes).
  { rewrite Hsizes. constructor; [lia | constructor]. }
  assert (Hrange : int64.in_range (sumZ dataSizes)).
  { rewrite Hsizes. unfold int64.in_range, int64.min_int, int64.max_int.
    simpl. lia. }
  split; [exact Hinactive|]. split; [exact Hchains|].
  split; [exact Hpos|]. split; [exact Hrange|].
  destruct (root_snapshot_keeps_data_file envRoot (ref "snapshot-2")
              (ref "snapshot-1") Hinactive Hchains) as (Hsize & _ & Hzero).
  split; [exact Hsize | exact (Hzero Hpos Hrange)].
Defined.

(** C3, as stated, fails: the root snapshot [snapshot-1] is not the
    active one and its disk chain is the chain of the attached disk, and
    it is attributed the 100 bytes of its data file. *)
Lemma root_snapshot_size_counterexample :
  sameValue (ref "snapshot-1") (ref "snapshot-2") = false
  /\ map SnapshotLayout.Disk
         (layoutsOf (FileLayoutEx.Snapshot layoutRoot) (ref "snapshot-1"))
     = [ FileLayoutEx.Disk layoutRoot ]
  /\ snapshotSizeOf envRoot (ref "snapshot-2") None (ref "snapshot-1") = 100
  /\ snapshotSizeOf envRoot (ref "snapshot-2") None (ref "snapshot-1") <> 0.
Proof. repeat split. by vm_compute. Qed.

(** C4.  The size of a node is the wrapped sum of the sizes of the keys
    left by the pruning; when and only when the node is the active
    snapshot, the sizes of the remaining disk files are added to it, the
    remaining disk files being all-disk-keys minus this-snapshot-keys as
    collected, before any removal: a sublist of all-disk-keys in which
    every key occurs as often as in all-disk-keys less its occurrences in
    this-snapshot-keys. *)
Theorem active_snapshot_drift (env : CrawlEnv)
  (current : ManagedObjectReference.t)
  (parent : option ManagedObjectReference.t)
  (snapshot : ManagedObjectReference.t) :
  let snapLayouts := FileLayoutEx.Snapshot (envLayoutEx env) in
  let m := fileKeyMap (envLayoutEx env) in
  let allDiskKeys := vmAllDiskFileKeys (envLayoutEx env) in
  let thisKeys := thisSnapshotKeys snapLayouts snapshot in
  let own :=
    int64.wrap (sumZ (map (fileSize m)
      (pruneFileKeys allDiskKeys parent thisKeys
                     (parentDiskKeys snapLayouts parent)))) in
  exists remaining : list Z,
    sublist remaining allDiskKeys
    /\ (forall k, count_occ Z.eq_dec remaining k
                 = (count_occ Z.eq_dec allDiskKeys k
                    - count_occ Z.eq_dec thisKeys k)%nat)
    /\ snapshotSizeOf env current parent snapshot
       = if sameValue snapshot current
         then int64.wrap (own + sumZ (map (fileSize m) remaining))
         else own.
Proof.
  intros snapLayouts m allDiskKeys thisKeys own.
  exists (removeFileKeys allDiskKeys thisKeys).
  split; [apply removeFileKeys_sublist|].
  split; [intros k; apply count_occ_removeFileKeys|].
  rewrite snapshotSizeOf_unfold. unfold attributedSize.
  fold snapLayouts m allDiskKeys thisKeys.
  rewrite addFileSizes_from_zero. fold own.
  destruct (sameValue snapshot current); [|done].
  unfold own. by rewrite addFileSizes_wrapped, wrap_add_l.
Qed.

(** Read as sets: when no file key is attached twice, the remaining disk
    files are the attached keys that are not among this-snapshot-keys. *)
Lemma drift_as_set_difference (env : CrawlEnv)
  (current : ManagedObjectReference.t)
  (parent : option ManagedObjectReference.t)
  (snapshot : ManagedObjectReference.t) :
  let snapLayouts := FileLayoutEx.Snapshot (envLayoutEx env) in
  let m := fileKeyMap (envLayoutEx env) in
  let allDiskKeys := vmAllDiskFileKeys (envLayoutEx env) in
  let thisKeys := thisSnapshotKeys snapLayouts snapshot in
  NoDup allDiskKeys ->
  sameValue snapshot current = true ->
  snapshotSizeOf env current parent snapshot
  = int64.wrap
      (sumZ (map (fileSize m)
         (pruneFileKeys allDiskKeys parent thisKeys
                        (parentDiskKeys snapLayouts parent)))
       + sumZ (map (fileSize m)
           (List.filter (fun k => negb (existsb (Z.eqb k) thisKeys))
                        allDiskKeys))).
Proof.
  intros snapLayouts m allDiskKeys thisKeys Hnd Hactive.
  rewrite snapshotSizeOf_unfold, Hactive. unfold attributedSize.
  fold snapLayouts m allDiskKeys thisKeys.
  rewrite addFileSizes_from_zero, addFileSizes_wrapped.
  by rewrite removeFileKeys_NoDup.
Qed.

(** ** The walk *)

Lemma map_flat_map {A B C : Type} (f : B -> C) (g : A -> list B) (l : list A) :
  map f (flat_map g l) = flat_map (fun x => map f (g x)) l.
Proof.
  induction l as [|x l IH]; [done|]. simpl. by rewrite map_app, IH.
Qed.

Lemma length_flat_map {A B : Type} (g : A -> list B) (l : list A) :
  length (flat_map g l) = list_sum (map (fun x => length (g x)) l).
Proof.
  induction l as [|x l IH]; [done|]. simpl. by rewrite length_app, IH.
Qed.

(** A loop whose every iteration appends to the state appends, in order,
    what the iterations append. *)
Lemma forRange_append {A B : Type} (body : A -> list B -> option (list B))
  (g : A -> list B) (l : list A) :
  Forall (fun x => forall s, body x s = Some (s ++ g x)) l ->
  forall s, forRange body l s = Some (s ++ flat_map g l).
Proof.
  induction 1 as [|x l Hx _ IH]; intros s; simpl.
  - by rewrite app_nil_r.
  - by rewrite Hx, IH, app_assoc.
Qed.

Section Walk.

Context `{Clock} (env : CrawlEnv) (current : ManagedObjectReference.t).
Hypothesis Hcurrent :
    SnapshotInfo.CurrentSnapshot (envSnapshotInfo env) = Some current.

Lemma crawlSnapTree_preorder (snapTree : SnapshotTree.t) :
  forall parent snapshots,
    crawlSnapTree env parent snapTree snapshots
    = Some (snapshots ++ map (summaryOf env current) (preorderTree parent snapTree)).
Proof.
  induction snapTree as [snapshot name description id createTime children IH]
    using SnapshotTree_ind'.
  intros parent snapshots. cbn [crawlSnapTree preorderTree]. rewrite Hcurrent.
  rewrite (forRange_append _
    (fun child => map (summaryOf env current)
                      (preorderTree (Some snapshot) child))).
  - cbn [map]. rewrite map_flat_map, <- app_assoc. reflexivity.
  - eapply Forall_impl; [exact IH|]. intros child Hchild s. apply Hchild.
Qed.

(** With a current snapshot on record, the walk returns, and it has
    appended one summary per node of the forest, in depth-first
    pre-order, each computed with the node's parent as context. *)
Lemma crawlFunc_preorder (snapTrees : list SnapshotTree.t) parent snapshots :
  crawlFunc env snapTrees parent snapshots
  = Some (snapshots ++ map (summaryOf env current) (preorder parent snapTrees)).
Proof.
  unfold crawlFunc, preorder.
  rewrite (forRange_append _
    (fun snapTree => map (summaryOf env current) (preorderTree parent snapTree))).
  - by rewrite map_flat_map.
  - apply Forall_forall. intros snapTree _ s. apply crawlSnapTree_preorder.
Qed.

End Walk.

Lemma length_preorderTree parent snapTree :
  length (preorderTree parent snapTree) = nodeCountTree snapTree.
Proof.
  revert parent.
  induction snapTree as [snapshot name description id createTime children IH]
    using SnapshotTree_ind'.
  intros parent. cbn [preorderTree nodeCountTree length]. f_equal.
  rewrite length_flat_map. f_equal.
  induction IH as [|child children Hchild _ IHchildren]; [done|].
  cbn [map]. by rewrite Hchild, IHchildren.
Qed.

Lemma length_preorder parent snapTrees :
  length (preorder parent snapTrees) = nodeCount snapTrees.
Proof.
  unfold preorder, nodeCount. rewrite length_flat_map. f_equal.
  induction snapTrees as [|snapTree snapTrees IH]; [done|].
  cbn [map]. by rewrite length_preorderTree, IH.
Qed.

(** Without a current snapshot the first node met stops the walk. *)
Lemma crawlFunc_panics `{Clock} (env : CrawlEnv) snapTree snapTrees parent snapshots :
  SnapshotInfo.CurrentSnapshot (envSnapshotInfo env) = None ->
  crawlFunc env (snapTree :: snapTrees) parent snapshots = None.
Proof.
  intros Hnone. unfold crawlFunc. cbn [forRange].
  destruct snapTree. cbn [crawlSnapTree]. by rewrite Hnone.
Qed.

(** [NewSnapshotSummarySet] on a machine whose pointers are all set. *)
Lemma NewSnapshotSummarySet_returns `{Clock} (vm : VirtualMachine.t)
  snapshotInfo layoutEx current (ageC ageW sizeC sizeW : Z) :
  VirtualMachine.Snapshot vm = Some snapshotInfo ->
  VirtualMachine.LayoutEx vm = Some layoutEx ->
  SnapshotInfo.CurrentSnapshot snapshotInfo = Some current ->
  let env := envOf (VirtualMachine.Name vm) snapshotInfo layoutEx
                   ageC ageW sizeC sizeW in
  let snapshots :=
    map (summaryOf env current)
        (preorder None (SnapshotInfo.RootSnapshotList snapshotInfo)) in
  NewSnapshotSummarySet vm ageC ageW sizeC sizeW
  = Some {| SnapshotSummarySet.VM := VirtualMachine.Self vm;
            SnapshotSummarySet.VMName := VirtualMachine.Name vm;
            SnapshotSummarySet.Snapshots := snapshots;
            SnapshotSummarySet.setSizeWarningState :=
              ExceedsSize
                (int64.wrap (sumZ (map SnapshotSummary.Size snapshots))) sizeW;
            SnapshotSummarySet.setSizeCriticalState :=
              ExceedsSize
                (int64.wrap (sumZ (map SnapshotSummary.Size snapshots))) sizeC |}.
Proof.
  intros Hinfo Hlayout Hcur env snapshots.
  unfold NewSnapshotSummarySet. rewrite Hinfo, Hlayout.
  fold (envOf (VirtualMachine.Name vm) snapshotInfo layoutEx ageC ageW sizeC sizeW).
  fold env.
  rewrite (crawlFunc_preorder env current Hcur). cbn [app]. fold snapshots.
  by rewrite foldl_add_from_zero.
Qed.

(** What a returned set is made of, whatever the machine. *)
Lemma NewSnapshotSummarySet_Some `{Clock} (vm : VirtualMachine.t)
  (ageC ageW sizeC sizeW : Z) (set : SnapshotSummarySet.t) :
  NewSnapshotSummarySet vm ageC ageW sizeC sizeW = Some set ->
  exists snapshotInfo layoutEx,
    VirtualMachine.Snapshot vm = Some snapshotInfo
    /\ VirtualMachine.LayoutEx vm = Some layoutEx
    /\ crawlFunc (envOf (VirtualMachine.Name vm) snapshotInfo layoutEx
                        ageC ageW sizeC sizeW)
                 (SnapshotInfo.RootSnapshotList snapshotInfo) None []
       = Some (SnapshotSummarySet.Snapshots set)
    /\ SnapshotSummarySet.setSizeWarningState set
       = ExceedsSize (SnapshotSummarySet.Size set) sizeW
    /\ SnapshotSummarySet.setSizeCriticalState set
       = ExceedsSize (SnapshotSummarySet.Size set) sizeC.
Proof.
  unfold NewSnapshotSummarySet.
  destruct (VirtualMachine.Snapshot vm) as [snapshotInfo|]; [|done].
  destruct (VirtualMachine.LayoutEx vm) as [layoutEx|]; [|done].
  fold (envOf (VirtualMachine.Name vm) snapshotInfo layoutEx ageC ageW sizeC sizeW).
  destruct (crawlFunc _ _ None []) as [snapshots|] eqn:Hcrawl; [|done].
  intros [= <-]. exists snapshotInfo, layoutEx. by repeat split.
Qed.

(** With a current snapshot on record the walk emits exactly one summary
    per node, in pre-order. *)
Lemma walk_one_summary_per_node `{Clock} (vm : VirtualMachine.t)
  snapshotInfo layoutEx current (ageC ageW sizeC sizeW : Z) :
  VirtualMachine.Snapshot vm = Some snapshotInfo ->
  VirtualMachine.LayoutEx vm = Some layoutEx ->
  SnapshotInfo.CurrentSnapshot snapshotInfo = Some current ->
  exists set,
    NewSnapshotSummarySet vm ageC ageW sizeC sizeW = Some set
    /\ length (SnapshotSummarySet.Snapshots set)
       = nodeCount (SnapshotInfo.RootSnapshotList snapshotInfo)
    /\ map SnapshotSummary.MOID (SnapshotSummarySet.Snapshots set)
       = map (fun visit =>
                ManagedObjectReference.Value (SnapshotTree.Snapshot (snd visit)))
             (preorder None (SnapshotInfo.RootSnapshotList snapshotInfo)).
Proof.
  intros Hinfo Hlayout Hcur. eexists. split.
  - by apply NewSnapshotSummarySet_returns.
  - cbn [SnapshotSummarySet.Snapshots]. split.
    + by rewrite length_map, length_preorder.
    + rewrite map_map. reflexivity.
Qed.

(** C8, at the failing input.  The machine has a forest of one node and
    no current snapshot reference: the walk reads
    [vm.Snapshot.CurrentSnapshot.Value] at the first node and stops there,
    so that no summary is returned; the same machine with the reference
    set yields its one summary. *)
Theorem walk_without_current_snapshot :
  let clock := time.utcClock 0 in
  nodeCount [ sampleLeaf "snapshot-1" 1 ] = 1%nat
  /\ NewSnapshotSummarySet vmNoCurrent 60 30 20 10 = None
  /\ option_map (fun set => length (SnapshotSummarySet.Snapshots set))
                (NewSnapshotSummarySet vmTwoGiB 60 30 20 10) = Some 1%nat.
Proof. repeat split. Qed.

(** ** Size flags *)

(** Every summary of a returned set carries as size-warning flag the test
    against the critical threshold, and as size-critical flag the test
    against the warning threshold. *)
Lemma emitted_size_flags `{Clock} (vm : VirtualMachine.t)
  (ageC ageW sizeC sizeW : Z) (set : SnapshotSummarySet.t) :
  NewSnapshotSummarySet vm ageC ageW sizeC sizeW = Some set ->
  Forall (fun snap =>
            SnapshotSummary.sizeWarningState snap
            = ExceedsSize (SnapshotSummary.Size snap) sizeC
            /\ SnapshotSummary.sizeCriticalState snap
               = ExceedsSize (SnapshotSummary.Size snap) sizeW)
         (SnapshotSummarySet.Snapshots set).
Proof.
  intros Hset.
  apply NewSnapshotSummarySet_Some in Hset
    as (snapshotInfo & layoutEx & _ & _ & Hcrawl & _).
  destruct (SnapshotInfo.CurrentSnapshot snapshotInfo) as [current|] eqn:Hcur.
  - rewrite (crawlFunc_preorder
               (envOf (VirtualMachine.Name vm) snapshotInfo layoutEx
                      ageC ageW sizeC sizeW) current Hcur) in Hcrawl.
    injection Hcrawl as <-. cbn [app].
    apply List.Forall_forall. intros snap Hin.
    apply in_map_iff in Hin as (visit & <- & _). by split.
  - destruct (SnapshotInfo.RootSnapshotList snapshotInfo) as [|root roots].
    + injection Hcrawl as <-. constructor.
    + rewrite crawlFunc_panics in Hcrawl by exact Hcur. discriminate Hcrawl.
Qed.

(** C1, at the failing input.  With a warning threshold of 1 GB and a
    critical threshold of 3 GB, the one snapshot of the machine has 2 GiB:
    it is over the warning threshold and not over the critical one, and
    its summary has the size-warning flag unset and the size-critical
    flag set. *)
Theorem size_flags_swapped :
  let clock := time.utcClock 0 in
  option_map
    (fun set =>
       map (fun snap => (SnapshotSummary.Size snap,
                         SnapshotSummary.sizeWarningState snap,
                         SnapshotSummary.sizeCriticalState snap))
           (SnapshotSummarySet.Snapshots set))
    (NewSnapshotSummarySet vmTwoGiB 60 30 3 1)
  = Some [ (2 * 1024 ^ 3, false, true) ]
  /\ ExceedsSize (2 * 1024 ^ 3) 1 = true
  /\ ExceedsSize (2 * 1024 ^ 3) 3 = false.
Proof. repeat split. Qed.

(** ** Cumulative size *)

(** C2, as amended.  For a set returned by [NewSnapshotSummarySet], the
    cumulative size [Size], which is also the set size tested for the two
    set-level flags, is the sum of the sizes of the summaries of the set
    kept as an int64; it is that sum exactly whenever the sum fits in an
    int64. *)
Theorem set_size_is_sum `{Clock} (vm : VirtualMachine.t)
  (ageC ageW sizeC sizeW : Z) (set : SnapshotSummarySet.t) :
  NewSnapshotSummarySet vm ageC ageW sizeC sizeW = Some set ->
  let total :=
    sumZ (map SnapshotSummary.Size (SnapshotSummarySet.Snapshots set)) in
  SnapshotSummarySet.Size set = int64.wrap total
  /\ SnapshotSummarySet.setSizeWarningState set
     = ExceedsSize (int64.wrap total) sizeW
  /\ SnapshotSummarySet.setSizeCriticalState set
     = ExceedsSize (int64.wrap total) sizeC
  /\ (int64.in_range total -> SnapshotSummarySet.Size set = total).
Proof.
  intros Hset total.
  apply NewSnapshotSummarySet_Some in Hset
    as (snapshotInfo & layoutEx & _ & _ & _ & Hwarn & Hcrit).
  rewrite Hwarn, Hcrit, set_Size_wrapped_sum. fold total.
  repeat split. intros Hrange. by apply wrap_in_range.
Qed.

(** The machine with one snapshot of 2 GiB. *)
Lemma set_size_is_sum_witness :
  let clock := time.utcClock 0 in
  exists set,
    NewSnapshotSummarySet vmTwoGiB 60 30 3 1 = Some set
    /\ SnapshotSummarySet.Size set
       = int64.wrap
           (sumZ (map SnapshotSummary.Size (SnapshotSummarySet.Snapshots set))).
Proof.
  intros clock.
  destruct (NewSnapshotSummarySet vmTwoGiB 60 30 3 1) as [set|] eqn:Hset.
  - exists set. split; [reflexivity|].
    exact (proj1 (set_size_is_sum vmTwoGiB 60 30 3 1 set Hset)).
  - vm_compute in Hset. discriminate Hset.
Defined.

(** C2, as stated, fails: two snapshots of [2^62] bytes each add up to
    [2^63] bytes, and the cumulative size of their set is [- 2^63]. *)
Lemma set_size_overflow_counterexample :
  let clock := time.utcClock 0 in
  option_map
    (fun set =>
       (map SnapshotSummary.Size (SnapshotSummarySet.Snapshots set),
        SnapshotSummarySet.Size set,
        sumZ (map SnapshotSummary.Size (SnapshotSummarySet.Snapshots set))))
    (NewSnapshotSummarySet vmHuge 60 30 20 10)
  = Some ([2 ^ 62; 2 ^ 62], - 2 ^ 63, 2 ^ 63)
  /\ - 2 ^ 63 <> 2 ^ 63.
Proof. split; [reflexivity | lia]. Qed.

(** ** The end-to-end scenario of the specification

    With age thresholds of 30 and 60 days and size thresholds of 10 and
    20 GB: [S1] has 2 GiB and is age-warning only, [S2] has 1.5 GiB and no
    flag, the set has 3.5 GiB and no size flag, and the age check reports
    WARNING. *)
Example end_to_end_scenario :
  let clock := time.utcClock scenarioNow in
  let result := NewSnapshotSummarySet scenarioVM 60 30 20 10 in
  option_map
    (fun set =>
       map (fun snap => (SnapshotSummary.MOID snap,
                         SnapshotSummary.Size snap,
                         [ SnapshotSummary.ageWarningState snap;
                           SnapshotSummary.ageCriticalState snap;
                           SnapshotSummary.sizeWarningState snap;
                           SnapshotSummary.sizeCriticalState snap ]))
           (SnapshotSummarySet.Snapshots set))
    result
  = Some [ ("S1", 2 * 1024 ^ 3, [true; false; false; false]);
           ("S2", 3 * 512 * 1024 ^ 2, [false; false; false; false]) ]
  /\ option_map
       (fun set => (SnapshotSummarySet.Size set,
                    SnapshotSummarySet.setSizeWarningState set,
                    SnapshotSummarySet.setSizeCriticalState set))
       result
     = Some (7 * 512 * 1024 ^ 2, false, false)
  /\ option_map (fun set => ExitStatusCode [set]) result
     = Some nagios.StateWARNINGExitCode.
Proof. repeat split. Qed.

(** * Further properties of the package *)

(** ** Totals and counts *)

Lemma len_app {A : Type} (l k : list A) : len (l ++ k) = len l + len k.
Proof. unfold len. rewrite length_app. lia. Qed.

Lemma countIf_le_len {A : Type} (p : A -> bool) (l : list A) :
  countIf p l <= len l.
Proof.
  unfold countIf, len. pose proof (List.filter_length_le p l). lia.
Qed.

Lemma sets_Snapshots_fold (sss : SnapshotSummarySets.t) (n : Z) :
  foldl (fun numSnapshots set =>
           numSnapshots + Z.of_nat (length (SnapshotSummarySet.Snapshots set)))
        n sss
  = n + len (allSnapshots sss).
Proof.
  revert n. induction sss as [|set sss IH]; intros n; simpl.
  - unfold len. simpl. lia.
  - rewrite IH. fold (allSnapshots sss). rewrite len_app. unfold len. lia.
Qed.

Lemma sets_Snapshots_total (sss : SnapshotSummarySets.t) :
  SnapshotSummarySets.Snapshots sss = len (allSnapshots sss).
Proof. unfold SnapshotSummarySets.Snapshots. by rewrite sets_Snapshots_fold. Qed.

Lemma len_allSnapshots_filter (p : SnapshotSummarySet.t -> bool) sss :
  len (allSnapshots (List.filter p sss)) <= len (allSnapshots sss).
Proof.
  induction sss as [|set sss IH]; simpl; [lia|].
  fold (allSnapshots sss). rewrite len_app.
  destruct (p set); simpl.
  - fold (allSnapshots (List.filter p sss)). rewrite len_app. lia.
  - unfold len in *. lia.
Qed.

Lemma countIf_sets_le_snapshots (p : SnapshotSummary.t -> bool) sss :
  countIf (fun set => existsb p (SnapshotSummarySet.Snapshots set)) sss
  <= countIf p (allSnapshots sss).
Proof.
  induction sss as [|set sss IH]; [done|].
  rewrite countIf_cons. simpl. fold (allSnapshots sss). rewrite countIf_app.
  destruct (existsb p (SnapshotSummarySet.Snapshots set)) eqn:Hex.
  - rewrite <- countIf_pos_existsb in Hex. apply Z.geb_le in Hex. lia.
  - pose proof (countIf_nonneg p (SnapshotSummarySet.Snapshots set)). lia.
Qed.

Lemma sets_ExceedsAge_pair `{Clock} (sss : SnapshotSummarySets.t) days :
  SnapshotSummarySets.ExceedsAge sss days
  = (countIf (fun set =>
                existsb (fun snap => SnapshotSummary.IsAgeExceeded snap days)
                        (SnapshotSummarySet.Snapshots set)) sss,
     countIf (fun snap => SnapshotSummary.IsAgeExceeded snap days)
             (allSnapshots sss)).
Proof. unfold SnapshotSummarySets.ExceedsAge. by rewrite sets_ExceedsAge_fold. Qed.

Lemma sets_ExceedsSize_pair (sss : SnapshotSummarySets.t) sizeGB :
  SnapshotSummarySets.ExceedsSize sss sizeGB
  = (countIf (fun set => ExceedsSize (SnapshotSummarySet.Size set) sizeGB) sss,
     len (allSnapshots
       (List.filter (fun set => ExceedsSize (SnapshotSummarySet.Size set) sizeGB)
                    sss))).
Proof. unfold SnapshotSummarySets.ExceedsSize. by rewrite sets_ExceedsSize_fold. Qed.


(** ** Not yet exceeded *)

Lemma countIf_all_iff {A : Type} (p : A -> bool) (l : list A) :
  countIf p l = len l <-> existsb (fun x => negb (p x)) l = false.
Proof.
  induction l as [|x l IH]; [done|].
  rewrite countIf_cons. unfold len in *. cbn [length existsb].
  pose proof (countIf_le_len p l) as Hle. unfold len in Hle.
  destruct (p x); cbn [negb orb].
  - rewrite <- IH. lia.
  - split; [lia | discriminate].
Qed.

Lemma existsb_allSnapshots (p : SnapshotSummary.t -> bool) sss :
  existsb (fun set => existsb p (SnapshotSummarySet.Snapshots set)) sss
  = existsb p (allSnapshots sss).
Proof.
  induction sss as [|set sss IH]; [done|].
  simpl. fold (allSnapshots sss). by rewrite existsb_app, IH.
Qed.

(** X2.  [HasNotYetExceededAge] is false exactly when every snapshot of
    the collection is counted by [ExceedsAge] for the same number of days;
    in particular it is false for a collection without snapshots. *)
Theorem HasNotYetExceededAge_false_iff `{Clock} (sss : SnapshotSummarySets.t)
  (days : Z) :
  SnapshotSummarySets.HasNotYetExceededAge sss days = false
  <-> snd (SnapshotSummarySets.ExceedsAge sss days)
      = SnapshotSummarySets.Snapshots sss.
Proof.
  rewrite sets_ExceedsAge_pair, sets_Snapshots_total. cbn [snd].
  rewrite countIf_all_iff.
  unfold SnapshotSummarySets.HasNotYetExceededAge.
  by rewrite existsb_allSnapshots.
Qed.

(** X3.  [HasNotYetExceededSize] is false exactly when every set of the
    collection is counted by [ExceedsSize] for the same threshold, and
    then [ExceedsSize] counts all the snapshots. *)
Theorem HasNotYetExceededSize_false_iff (sss : SnapshotSummarySets.t)
  (sizeGB : Z) :
  (SnapshotSummarySets.HasNotYetExceededSize sss sizeGB = false
   <-> fst (SnapshotSummarySets.ExceedsSize sss sizeGB) = len sss)
  /\ (SnapshotSummarySets.HasNotYetExceededSize sss sizeGB = false ->
      snd (SnapshotSummarySets.ExceedsSize sss sizeGB)
      = SnapshotSummarySets.Snapshots sss).
Proof.
  rewrite sets_ExceedsSize_pair, sets_Snapshots_total. cbn [fst snd].
  unfold SnapshotSummarySets.HasNotYetExceededSize.
  split; [by rewrite countIf_all_iff|].
  intros Hall. f_equal. f_equal.
  induction sss as [|set sss IH]; [done|].
  cbn [existsb List.filter] in *. apply orb_false_iff in Hall as [Hset Hrest].
  apply negb_false_iff in Hset. rewrite Hset. f_equal. by apply IH.
Qed.

(** ** Sets as built by [NewSnapshotSummarySet] *)

Lemma crawl_result_cases `{Clock} (env : CrawlEnv) snapshots :
  crawlFunc env (SnapshotInfo.RootSnapshotList (envSnapshotInfo env)) None []
  = Some snapshots ->
  (exists current,
      SnapshotInfo.CurrentSnapshot (envSnapshotInfo env) = Some current
      /\ snapshots
         = map (summaryOf env current)
               (preorder None (SnapshotInfo.RootSnapshotList (envSnapshotInfo env))))
  \/ (SnapshotInfo.CurrentSnapshot (envSnapshotInfo env) = None
      /\ SnapshotInfo.RootSnapshotList (envSnapshotInfo env) = []
      /\ snapshots = []).
Proof.
  intros Hcrawl.
  destruct (SnapshotInfo.CurrentSnapshot (envSnapshotInfo env))
    as [current|] eqn:Hcur.
  - left. exists current. split; [done|].
    rewrite (crawlFunc_preorder env current Hcur) in Hcrawl.
    by injection Hcrawl as <-.
  - right. split; [done|].
    destruct (SnapshotInfo.RootSnapshotList (envSnapshotInfo env))
      as [|root roots].
    + by injection Hcrawl as <-.
    + rewrite crawlFunc_panics in Hcrawl by exact Hcur. discriminate Hcrawl.
Qed.

Lemma emitted_fields `{Clock} (vm : VirtualMachine.t)
  (ageC ageW sizeC sizeW : Z) (set : SnapshotSummarySet.t) :
  NewSnapshotSummarySet vm ageC ageW sizeC sizeW = Some set ->
  List.Forall
    (fun snap =>
       SnapshotSummary.VMName snap = VirtualMachine.Name vm
       /\ SnapshotSummary.ageWarningState snap
          = SnapshotSummary.IsAgeExceeded snap ageW
       /\ SnapshotSummary.ageCriticalState snap
          = SnapshotSummary.IsAgeExceeded snap ageC)
    (SnapshotSummarySet.Snapshots set).
Proof.
  intros Hset.
  apply NewSnapshotSummarySet_Some in Hset
    as (snapshotInfo & layoutEx & _ & _ & Hcrawl & _).
  apply crawl_result_cases in Hcrawl
    as [(current & _ & ->)|(_ & _ & ->)]; [|constructor].
  apply List.Forall_forall. intros snap Hin.
  apply in_map_iff in Hin as (visit & <- & _). by repeat split.
Qed.

Lemma existsb_Forall_ext {A : Type} (p q : A -> bool) (l : list A) :
  List.Forall (fun x => p x = q x) l -> existsb p l = existsb q l.
Proof. induction 1 as [|x l Hx _ IH]; [done|]. simpl. by rewrite Hx, IH. Qed.

Lemma filter_Forall_ext {A : Type} (p q : A -> bool) (l : list A) :
  List.Forall (fun x => p x = q x) l -> List.filter p l = List.filter q l.
Proof. induction 1 as [|x l Hx _ IH]; [done|]. simpl. by rewrite Hx, IH. Qed.

Lemma one_le_countIf {A : Type} (p : A -> bool) (l : list A) :
  1 <= countIf p l <-> existsb p l = true.
Proof. rewrite <- countIf_pos_existsb, Z.geb_le. done. Qed.

Lemma built_age_flags `{Clock} (ageC ageW sizeC sizeW : Z) sss :
  List.Forall (builtWith ageC ageW sizeC sizeW) sss ->
  List.Forall
    (fun snap =>
       SnapshotSummary.ageWarningState snap
       = SnapshotSummary.IsAgeExceeded snap ageW
       /\ SnapshotSummary.ageCriticalState snap
          = SnapshotSummary.IsAgeExceeded snap ageC)
    (allSnapshots sss).
Proof.
  induction 1 as [|set sss [vm Hset] _ IH]; [constructor|].
  simpl. apply List.Forall_app. split; [|exact IH].
  eapply List.Forall_impl; [|exact (emitted_fields _ _ _ _ _ _ Hset)].
  intros snap (_ & Hw & Hc). by split.
Qed.

Lemma built_size_flags `{Clock} (ageC ageW sizeC sizeW : Z) sss :
  List.Forall (builtWith ageC ageW sizeC sizeW) sss ->
  List.Forall
    (fun set =>
       SnapshotSummarySet.setSizeWarningState set
       = ExceedsSize (SnapshotSummarySet.Size set) sizeW
       /\ SnapshotSummarySet.setSizeCriticalState set
          = ExceedsSize (SnapshotSummarySet.Size set) sizeC)
    sss.
Proof.
  intros Hbuilt. eapply List.Forall_impl; [|exact Hbuilt].
  intros set [vm Hset].
  by apply NewSnapshotSummarySet_Some in Hset as (? & ? & _ & _ & _ & ? & ?).
Qed.

Lemma built_state_counts `{Clock} (ageC ageW sizeC sizeW : Z) sss :
  List.Forall (builtWith ageC ageW sizeC sizeW) sss ->
  (SnapshotSummarySets.IsAgeCriticalState sss = true
   <-> 1 <= fst (SnapshotSummarySets.ExceedsAge sss ageC))
  /\ (SnapshotSummarySets.IsAgeWarningState sss = true
      <-> 1 <= fst (SnapshotSummarySets.ExceedsAge sss ageW))
  /\ (SnapshotSummarySets.IsSizeCriticalState sss = true
      <-> 1 <= fst (SnapshotSummarySets.ExceedsSize sss sizeC))
  /\ (SnapshotSummarySets.IsSizeWarningState sss = true
      <-> 1 <= fst (SnapshotSummarySets.ExceedsSize sss sizeW)).
Proof.
  intros Hbuilt.
  pose proof (built_age_flags _ _ _ _ _ Hbuilt) as Hage.
  pose proof (built_size_flags _ _ _ _ _ Hbuilt) as Hsize.
  rewrite !sets_ExceedsAge_pair, !sets_ExceedsSize_pair. cbn [fst].
  rewrite !one_le_countIf, !existsb_allSnapshots.
  unfold SnapshotSummarySets.IsAgeCriticalState,
    SnapshotSummarySets.IsAgeWarningState,
    SnapshotSummarySets.IsSizeCriticalState,
    SnapshotSummarySets.IsSizeWarningState,
    SnapshotSummarySet.IsAgeCriticalState,
    SnapshotSummarySet.IsAgeWarningState.
  rewrite !existsb_allSnapshots.
  repeat split.
  - rewrite (existsb_Forall_ext SnapshotSummary.IsAgeCriticalState
               (fun snap => SnapshotSummary.IsAgeExceeded snap ageC)); [done|].
    eapply List.Forall_impl; [|exact Hage]. by intros snap [_ ?].
  - rewrite (existsb_Forall_ext SnapshotSummary.IsAgeCriticalState
               (fun snap => SnapshotSummary.IsAgeExceeded snap ageC)); [done|].
    eapply List.Forall_impl; [|exact Hage]. by intros snap [_ ?].
  - rewrite (existsb_Forall_ext SnapshotSummary.IsAgeWarningState
               (fun snap => SnapshotSummary.IsAgeExceeded snap ageW)); [done|].
    eapply List.Forall_impl; [|exact Hage]. by intros snap [? _].
  - rewrite (existsb_Forall_ext SnapshotSummary.IsAgeWarningState
               (fun snap => SnapshotSummary.IsAgeExceeded snap ageW)); [done|].
    eapply List.Forall_impl; [|exact Hage]. by intros snap [? _].
  - rewrite (existsb_Forall_ext SnapshotSummarySet.IsSizeCriticalState
               (fun set => ExceedsSize (SnapshotSummarySet.Size set) sizeC));
      [done|].
    eapply List.Forall_impl; [|exact Hsize]. by intros set [_ ?].
  - rewrite (existsb_Forall_ext SnapshotSummarySet.IsSizeCriticalState
               (fun set => ExceedsSize (SnapshotSummarySet.Size set) sizeC));
      [done|].
    eapply List.Forall_impl; [|exact Hsize]. by intros set [_ ?].
  - rewrite (existsb_Forall_ext SnapshotSummarySet.IsSizeWarningState
               (fun set => ExceedsSize (SnapshotSummarySet.Size set) sizeW));
      [done|].
    eapply List.Forall_impl; [|exact Hsize]. by intros set [? _].
  - rewrite (existsb_Forall_ext SnapshotSummarySet.IsSizeWarningState
               (fun set => ExceedsSize (SnapshotSummarySet.Size set) sizeW));
      [done|].
    eapply List.Forall_impl; [|exact Hsize]. by intros set [? _].
Qed.

Lemma exceed_counts_bounds_age `{Clock} (sss : SnapshotSummarySets.t) days :
  fst (SnapshotSummarySets.ExceedsAge sss days)
  <= snd (SnapshotSummarySets.ExceedsAge sss days)
  /\ snd (SnapshotSummarySets.ExceedsAge sss days)
     <= SnapshotSummarySets.Snapshots sss.
Proof.
  rewrite sets_ExceedsAge_pair, sets_Snapshots_total. cbn [fst snd].
  split; [apply countIf_sets_le_snapshots | apply countIf_le_len].
Qed.

Lemma exceed_counts_bounds_size (sss : SnapshotSummarySets.t) sizeGB :
  fst (SnapshotSummarySets.ExceedsSize sss sizeGB) <= len sss
  /\ 0 <= snd (SnapshotSummarySets.ExceedsSize sss sizeGB)
       <= SnapshotSummarySets.Snapshots sss.
Proof.
  rewrite sets_ExceedsSize_pair, sets_Snapshots_total. cbn [fst snd].
  split; [apply countIf_le_len|].
  split; [unfold len; lia | apply len_allSnapshots_filter].
Qed.

(** X4.  For sets built by [NewSnapshotSummarySet] under the same
    thresholds and read at the same clock instant, each state query of
    the collection holds exactly when the matching count finds at least
    one set: the age states against [ExceedsAge], the size states against
    [ExceedsSize]. *)
Theorem states_agree_with_counts `{Clock} (ageC ageW sizeC sizeW : Z)
  (sss : SnapshotSummarySets.t) :
  List.Forall (builtWith ageC ageW sizeC sizeW) sss ->
  (SnapshotSummarySets.IsAgeCriticalState sss = true
   <-> 1 <= fst (SnapshotSummarySets.ExceedsAge sss ageC))
  /\ (SnapshotSummarySets.IsAgeWarningState sss = true
      <-> 1 <= fst (SnapshotSummarySets.ExceedsAge sss ageW))
  /\ (SnapshotSummarySets.IsSizeCriticalState sss = true
      <-> 1 <= fst (SnapshotSummarySets.ExceedsSize sss sizeC))
  /\ (SnapshotSummarySets.IsSizeWarningState sss = true
      <-> 1 <= fst (SnapshotSummarySets.ExceedsSize sss sizeW)).
Proof. apply built_state_counts. Qed.

(** The sets of the sample machines are built sets. *)
Lemma built_singleton `{Clock} vm (ageC ageW sizeC sizeW : Z) set :
  NewSnapshotSummarySet vm ageC ageW sizeC sizeW = Some set ->
  List.Forall (builtWith ageC ageW sizeC sizeW) [set].
Proof. intros Hset. constructor; [by exists vm | constructor]. Defined.

(** The machine with one snapshot of 2 GiB, thresholds 1 and 3 GB. *)
Lemma states_agree_with_counts_witness :
  let clock := time.utcClock 0 in
  exists set,
    List.Forall (builtWith 60 30 3 1) [set]
    /\ (SnapshotSummarySets.IsSizeWarningState [set] = true
        <-> 1 <= fst (SnapshotSummarySets.ExceedsSize [set] 1)).
Proof.
  intros clock.
  destruct (NewSnapshotSummarySet vmTwoGiB 60 30 3 1) as [set|] eqn:Hset;
    [|vm_compute in Hset; discriminate Hset].
  exists set. split; [exact (built_singleton _ _ _ _ _ _ Hset)|].
  apply (states_agree_with_counts 60 30 3 1 [set]
           (built_singleton _ _ _ _ _ _ Hset)).
Defined.

(** ** One-line summaries *)

(** X5.  For built sets and the thresholds they were built with, read
    at one instant, the age summary is one of two lines.  When no snapshot
    is age-flagged it is the line [No snapshots older than ... days
    detected] for the warning threshold.  Otherwise it is the line [...
    VMs with ... snapshots older than ... days detected], written for the
    critical threshold when some snapshot is age-critical and for the
    warning threshold when not; the numbers of machines and snapshots it
    prints are what [ExceedsAge] counts for that threshold, at least one,
    with no more machines than snapshots and no more snapshots than the
    total printed after them. *)
Theorem age_one_line_summary `{Clock} (ageC ageW sizeC sizeW : Z)
  (stateLabel : string) (sss : SnapshotSummarySets.t)
  (evaluatedVMs : list VirtualMachine.t) (rps : list ResourcePool.t) :
  List.Forall (builtWith ageC ageW sizeC sizeW) sss ->
  let line :=
    SnapshotsAgeOneLineCheckSummary stateLabel sss ageC ageW evaluatedVMs rps in
  (SnapshotSummarySets.IsAgeCriticalState sss = false
   /\ SnapshotSummarySets.IsAgeWarningState sss = false
   /\ line
      = Sprintf
          "%s: No snapshots older than %d days detected (evaluated %d VMs, %d Snapshots, %d Resource Pools)"
          [ ArgString stateLabel; ArgInt ageW; ArgInt (len evaluatedVMs);
            ArgInt (SnapshotSummarySets.Snapshots sss); ArgInt (len rps) ])
  \/ (exists vms snapshots days : Z,
        SnapshotSummarySets.IsAgeCriticalState sss
        || SnapshotSummarySets.IsAgeWarningState sss = true
        /\ days = (if SnapshotSummarySets.IsAgeCriticalState sss
                   then ageC else ageW)
        /\ (vms, snapshots) = SnapshotSummarySets.ExceedsAge sss days
        /\ 1 <= vms <= snapshots
        /\ snapshots <= SnapshotSummarySets.Snapshots sss
        /\ line
           = Sprintf
               "%s: %d VMs with %d snapshots older than %d days detected (evaluated %d VMs, %d Snapshots, %d Resource Pools)"
               [ ArgString stateLabel; ArgInt vms; ArgInt snapshots;
                 ArgInt days; ArgInt (len evaluatedVMs);
                 ArgInt (SnapshotSummarySets.Snapshots sss);
                 ArgInt (len rps) ]).
Proof.
  intros Hbuilt line. subst line.
  destruct (built_state_counts _ _ _ _ _ Hbuilt) as (HC & HW & _ & _).
  pose proof (exceed_counts_bounds_age sss ageC) as HbC.
  pose proof (exceed_counts_bounds_age sss ageW) as HbW.
  unfold SnapshotsAgeOneLineCheckSummary.
  destruct (SnapshotSummarySets.IsAgeCriticalState sss) eqn:Hcrit.
  - right.
    destruct (SnapshotSummarySets.ExceedsAge sss ageC)
      as [vms snapshots] eqn:Hpair.
    cbn [fst snd] in *. apply proj1 in HC. specialize (HC eq_refl).
    destruct HbC. exists vms, snapshots, ageC.
    rewrite Hpair. repeat split; first [lia | done].
  - destruct (SnapshotSummarySets.IsAgeWarningState sss) eqn:Hwarn.
    + right.
      destruct (SnapshotSummarySets.ExceedsAge sss ageW)
        as [vms snapshots] eqn:Hpair.
      cbn [fst snd] in *. apply proj1 in HW. specialize (HW eq_refl).
      destruct HbW. exists vms, snapshots, ageW.
      rewrite Hpair. repeat split; first [lia | done].
    + left. by repeat split.
Qed.

(** The machine of the scenario read at day 1000 against 60 and 30 days:
    one machine with one snapshot older than 30 days, of two snapshots. *)
Lemma age_one_line_summary_witness :
  let clock := time.utcClock scenarioNow in
  exists set,
    List.Forall (builtWith 60 30 20 10) [set]
    /\ SnapshotsAgeOneLineCheckSummary "WARNING" [set] 60 30 [scenarioVM] []
       = Sprintf
           "%s: %d VMs with %d snapshots older than %d days detected (evaluated %d VMs, %d Snapshots, %d Resource Pools)"
           [ ArgString "WARNING"; ArgInt 1; ArgInt 1; ArgInt 30; ArgInt 1;
             ArgInt 2; ArgInt 0 ].
Proof.
  intros clock.
  destruct (NewSnapshotSummarySet scenarioVM 60 30 20 10) as [set|] eqn:Hset;
    [|vm_compute in Hset; discriminate Hset].
  exists set. split; [exact (built_singleton _ _ _ _ _ _ Hset)|].
  destruct (age_one_line_summary 60 30 20 10 "WARNING" [set] [scenarioVM] []
              (built_singleton _ _ _ _ _ _ Hset))
    as [(_ & Hwarn & _) | (vms & snapshots & days & _ & Hdays & Hpair & _ & _
                           & Hline)].
  - pose proof Hset as Hset'. vm_compute in Hset'. injection Hset' as <-.
    vm_compute in Hwarn. discriminate Hwarn.
  - rewrite Hline. clear Hline.
    pose proof Hset as Hset'. vm_compute in Hset'. injection Hset' as <-.
    vm_compute in Hdays. subst days.
    vm_compute in Hpair. injection Hpair as -> ->.
    reflexivity.
Defined.

(** X6.  For built sets and the thresholds they were built with, the size
    summary is one of two lines.  When no set has a cumulative size flag
    it is the line [No VMs, each with combined snapshots exceeding ...
    detected] for the warning threshold.  Otherwise it is the line [...
    VMs with combined snapshots (...) exceeding ... detected], written for
    the critical threshold when some set is size-critical and for the
    warning threshold when not; the numbers of machines and snapshots it
    prints are what [ExceedsSize] counts for that threshold: at least one
    machine and no more than there are sets, and no more snapshots than
    the total printed after them. *)
Theorem size_one_line_summary `{Clock} (ageC ageW sizeC sizeW : Z)
  (suffix stateLabel : string) (sss : SnapshotSummarySets.t)
  (evaluatedVMs : list VirtualMachine.t) (rps : list ResourcePool.t) :
  List.Forall (builtWith ageC ageW sizeC sizeW) sss ->
  let line :=
    SnapshotsSizeOneLineCheckSummary suffix stateLabel sss sizeC sizeW
      evaluatedVMs rps in
  (SnapshotSummarySets.IsSizeCriticalState sss = false
   /\ SnapshotSummarySets.IsSizeWarningState sss = false
   /\ line
      = Sprintf
          "%s: No VMs, each with combined snapshots exceeding %d %s detected (evaluated %d VMs, %d Snapshots, %d Resource Pools)"
          [ ArgString stateLabel; ArgInt sizeW; ArgString suffix;
            ArgInt (len evaluatedVMs);
            ArgInt (SnapshotSummarySets.Snapshots sss); ArgInt (len rps) ])
  \/ (exists vms snapshots sizeGB : Z,
        SnapshotSummarySets.IsSizeCriticalState sss
        || SnapshotSummarySets.IsSizeWarningState sss = true
        /\ sizeGB = (if SnapshotSummarySets.IsSizeCriticalState sss
                     then sizeC else sizeW)
        /\ (vms, snapshots) = SnapshotSummarySets.ExceedsSize sss sizeGB
        /\ 1 <= vms <= len sss
        /\ 0 <= snapshots <= SnapshotSummarySets.Snapshots sss
        /\ line
           = Sprintf
               "%s: %d VMs with combined snapshots (%d) exceeding %d %s detected (evaluated %d VMs, %d Snapshots, %d Resource Pools)"
               [ ArgString stateLabel; ArgInt vms; ArgInt snapshots;
                 ArgInt sizeGB; ArgString suffix; ArgInt (len evaluatedVMs);
                 ArgInt (SnapshotSummarySets.Snapshots sss);
                 ArgInt (len rps) ]).
Proof.
  intros Hbuilt line. subst line.
  destruct (built_state_counts _ _ _ _ _ Hbuilt) as (_ & _ & HC & HW).
  pose proof (exceed_counts_bounds_size sss sizeC) as HbC.
  pose proof (exceed_counts_bounds_size sss sizeW) as HbW.
  unfold SnapshotsSizeOneLineCheckSummary.
  destruct (SnapshotSummarySets.IsSizeCriticalState sss) eqn:Hcrit.
  - right.
    destruct (SnapshotSummarySets.ExceedsSize sss sizeC)
      as [vms snapshots] eqn:Hpair.
    cbn [fst snd] in *. apply proj1 in HC. specialize (HC eq_refl).
    destruct HbC as (? & ? & ?). exists vms, snapshots, sizeC.
    rewrite Hpair. repeat split; first [lia | done].
  - destruct (SnapshotSummarySets.IsSizeWarningState sss) eqn:Hwarn.
    + right.
      destruct (SnapshotSummarySets.ExceedsSize sss sizeW)
        as [vms snapshots] eqn:Hpair.
      cbn [fst snd] in *. apply proj1 in HW. specialize (HW eq_refl).
      destruct HbW as (? & ? & ?). exists vms, snapshots, sizeW.
      rewrite Hpair. repeat split; first [lia | done].
    + left. by repeat split.
Qed.

(** The machine of the scenario, with snapshots of 3.5 GiB together,
    against 3 and 1 GB: the line is written for the critical threshold. *)
Lemma size_one_line_summary_witness :
  let clock := time.utcClock scenarioNow in
  exists set,
    List.Forall (builtWith 60 30 3 1) [set]
    /\ SnapshotsSizeOneLineCheckSummary "GB" "CRITICAL" [set] 3 1
         [scenarioVM] []
       = Sprintf
           "%s: %d VMs with combined snapshots (%d) exceeding %d %s detected (evaluated %d VMs, %d Snapshots, %d Resource Pools)"
           [ ArgString "CRITICAL"; ArgInt 1; ArgInt 2; ArgInt 3;
             ArgString "GB"; ArgInt 1; ArgInt 2; ArgInt 0 ].
Proof.
  intros clock.
  destruct (NewSnapshotSummarySet scenarioVM 60 30 3 1) as [set|] eqn:Hset;
    [|vm_compute in Hset; discriminate Hset].
  exists set. split; [exact (built_singleton _ _ _ _ _ _ Hset)|].
  destruct (size_one_line_summary 60 30 3 1 "GB" "CRITICAL" [set]
              [scenarioVM] [] (built_singleton _ _ _ _ _ _ Hset))
    as [(Hcrit & _ & _) | (vms & snapshots & sizeGB & _ & Hsize & Hpair & _
                           & _ & Hline)].
  - pose proof Hset as Hset'. vm_compute in Hset'. injection Hset' as <-.
    vm_compute in Hcrit. discriminate Hcrit.
  - rewrite Hline. clear Hline.
    pose proof Hset as Hset'. vm_compute in Hset'. injection Hset' as <-.
    vm_compute in Hsize. subst sizeGB.
    vm_compute in Hpair. injection Hpair as -> ->.
    reflexivity.
Defined.

(** ** The lists of the reports *)

Lemma listedSnapshots_app w1 w2 :
  listedSnapshots (w1 ++ w2) = listedSnapshots w1 ++ listedSnapshots w2.
Proof. unfold listedSnapshots. apply flat_map_app. Qed.


Lemma listedSnapshots_entries snapSet snapshots :
  listedSnapshots (map (fun snap => ListEntry snap snapSet) snapshots)
  = snapshots.
Proof. induction snapshots as [|snap l IH]; [done|]. simpl. by f_equal. Qed.


Lemma writeSnapshots_all snapSet snapshots w :
  foldl (fun w snap => w ++ [ListEntry snap snapSet]) w snapshots
  = w ++ map (fun snap => ListEntry snap snapSet) snapshots.
Proof.
  revert w. induction snapshots as [|snap snapshots IH]; intros w; simpl.
  - by rewrite app_nil_r.
  - by rewrite IH, <- app_assoc.
Qed.

Lemma listed_writeSetsWhere test w sss :
  listedSnapshots (writeSetsWhere test w sss)
  = listedSnapshots w ++ allSnapshots (List.filter test sss).
Proof.
  unfold writeSetsWhere. revert w.
  induction sss as [|set sss IH]; intros w; simpl.
  - by rewrite app_nil_r.
  - rewrite IH. destruct (test set); [|done].
    rewrite writeSnapshots_all, listedSnapshots_app, listedSnapshots_entries.
    simpl. fold (allSnapshots (List.filter test sss)).
    by rewrite <- app_assoc.
Qed.

Lemma filter_none {A : Type} (p : A -> bool) (l : list A) :
  existsb p l = false -> List.filter p l = [].
Proof.
  induction l as [|x l IH]; [done|]. simpl.
  destruct (p x); [done|]. exact IH.
Qed.

Lemma filter_partition_Permutation {A : Type} (p : A -> bool) (l : list A) :
  List.filter p l ++ List.filter (fun x => negb (p x)) l ≡ₚ l.
Proof.
  induction l as [|x l IH]; [done|]. simpl.
  destruct (p x); simpl.
  - by constructor.
  - rewrite <- Permutation_middle. by constructor.
Qed.

Lemma allSnapshots_app sss1 sss2 :
  allSnapshots (sss1 ++ sss2) = allSnapshots sss1 ++ allSnapshots sss2.
Proof. unfold allSnapshots. apply flat_map_app. Qed.

Lemma allSnapshots_Permutation sss1 sss2 :
  sss1 ≡ₚ sss2 -> allSnapshots sss1 ≡ₚ allSnapshots sss2.
Proof.
  induction 1 as [|set l k _ IH|a b l|l k m _ IH1 _ IH2]; simpl.
  - done.
  - by rewrite IH.
  - rewrite !app_assoc. f_equiv. apply Permutation_app_comm.
  - by rewrite IH1.
Qed.

Lemma existsb_orb {A : Type} (p q : A -> bool) (l : list A) :
  existsb (fun x => p x || q x) l = existsb p l || existsb q l.
Proof.
  induction l as [|x l IH]; [done|]. simpl. rewrite IH.
  destruct (p x), (q x), (existsb p l), (existsb q l); reflexivity.
Qed.

Lemma existsb_mono {A : Type} (p q : A -> bool) (l : list A) :
  List.Forall (fun x => p x = true -> q x = true) l ->
  existsb p l = true -> existsb q l = true.
Proof.
  induction 1 as [|x l Hx _ IH]; [done|]. simpl.
  intros [Hp|Hp]%orb_true_iff.
  - by rewrite (Hx Hp).
  - rewrite (IH Hp). apply orb_true_r.
Qed.

Lemma not_existsb_false {A : Type} (p q : A -> bool) (l : list A) :
  List.Forall (fun x => p x = true -> q x = true) l ->
  existsb q l = false -> existsb p l = false.
Proof.
  intros Himpl Hq. destruct (existsb p l) eqn:Hp; [|done].
  by rewrite (existsb_mono p q l Himpl Hp) in Hq.
Qed.



(** X8.  For built sets and the thresholds they were built with, the list
    part of the size report prints every snapshot of the collection
    exactly once: first the snapshots of the sets whose cumulative size is
    flagged, then those of the other sets, sets and snapshots in order. *)
Theorem size_report_lists_every_snapshot `{Clock} (ageC ageW sizeC sizeW : Z)
  (typeAge typeSize sizeSuffix : string) (sss : SnapshotSummarySets.t) :
  typeAge <> typeSize ->
  List.Forall (builtWith ageC ageW sizeC sizeW) sss ->
  let flagged set :=
    SnapshotSummarySet.setSizeWarningState set
    || SnapshotSummarySet.setSizeCriticalState set in
  let listed :=
    listedSnapshots
      (SnapshotsSizeReportEntries typeAge typeSize sizeSuffix sss sizeC sizeW) in
  listed = allSnapshots (List.filter flagged sss)
           ++ allSnapshots (List.filter (fun set => negb (flagged set)) sss)
  /\ listed ≡ₚ allSnapshots sss.
Proof.
  intros Htypes Hbuilt flagged listed.
  assert (Hlisted :
    listed = allSnapshots (List.filter flagged sss)
             ++ allSnapshots (List.filter (fun set => negb (flagged set)) sss));
    [|split; [exact Hlisted|];
      rewrite Hlisted, <- allSnapshots_app;
      apply allSnapshots_Permutation, filter_partition_Permutation].
  pose proof (built_size_flags _ _ _ _ _ Hbuilt) as Hsize.
  assert (Hneq : (typeSize =? typeAge)%string = false).
  { apply String.eqb_neq. congruence. }
  unfold listed, SnapshotsSizeReportEntries, writeSnapshotsListEntries.
  rewrite String.eqb_refl, Hneq. cbn [andb app].
  assert (Hfirst :
    SnapshotSummarySets.IsSizeCriticalState sss
    || SnapshotSummarySets.IsSizeWarningState sss
    = existsb flagged sss).
  { unfold SnapshotSummarySets.IsSizeCriticalState,
      SnapshotSummarySets.IsSizeWarningState, flagged.
    rewrite existsb_orb. apply orb_comm. }
  assert (Hsecond :
    SnapshotSummarySets.HasNotYetExceededSize sss sizeW = false ->
    List.filter (fun set => negb (flagged set)) sss = []).
  { unfold SnapshotSummarySets.HasNotYetExceededSize.
    intros Hnone. apply filter_none.
    eapply not_existsb_false; [|exact Hnone].
    eapply List.Forall_impl; [|exact Hsize]. intros set [Hw _] Hset.
    unfold flagged in Hset. apply negb_true_iff, orb_false_iff in Hset.
    destruct Hset as [Hset _]. rewrite Hw in Hset. by rewrite Hset. }
  rewrite Hfirst.
  assert (Hflagged :
    listedSnapshots
      (if existsb flagged sss
       then writeSetsWhere
              (fun snapSet => SnapshotSummarySet.IsSizeWarningState snapSet
                              || SnapshotSummarySet.IsSizeCriticalState snapSet)
              [ExceedingHeader sizeW sizeC sizeSuffix typeSize] sss
       else [ExceedingHeader sizeW sizeC sizeSuffix typeSize; NoneDetected])
    = allSnapshots (List.filter flagged sss)).
  { destruct (existsb flagged sss) eqn:Hany.
    - by rewrite listed_writeSetsWhere.
    - by rewrite (filter_none _ _ Hany). }
  destruct (SnapshotSummarySets.HasNotYetExceededSize sss sizeW) eqn:Hnot.
  - rewrite listed_writeSetsWhere, listedSnapshots_app, Hflagged.
    cbn [listedSnapshots flat_map app]. by rewrite app_nil_r.
  - rewrite !listedSnapshots_app, Hflagged, (Hsecond eq_refl).
    cbn [listedSnapshots flat_map app allSnapshots]. by rewrite !app_nil_r.
Qed.

Lemma size_report_lists_every_snapshot_witness :
  let clock := time.utcClock 0 in
  exists set,
    "age"%string <> "size"%string
    /\ List.Forall (builtWith 60 30 3 1) [set]
    /\ listedSnapshots (SnapshotsSizeReportEntries "age" "size" "GB" [set] 3 1)
       ≡ₚ allSnapshots [set].
Proof.
  intros clock.
  destruct (NewSnapshotSummarySet vmTwoGiB 60 30 3 1) as [set|] eqn:Hset;
    [|vm_compute in Hset; discriminate Hset].
  assert (Htypes : "age"%string <> "size"%string) by discriminate.
  exists set. split; [exact Htypes|].
  split; [exact (built_singleton _ _ _ _ _ _ Hset)|].
  apply (size_report_lists_every_snapshot 60 30 3 1 "age" "size" "GB" [set]
           Htypes (built_singleton _ _ _ _ _ _ Hset)).
Defined.

(** ** Size attribution, further *)

Lemma removeFileKeys_by_count l keys rest :
  (forall k, (count_occ Z.eq_dec l k - count_occ Z.eq_dec keys k)%nat
             = count_occ Z.eq_dec rest k) ->
  removeFileKeys l keys ≡ₚ rest.
Proof.
  intros Hcount. apply (Permutation_count_occ Z.eq_dec). intros k.
  by rewrite count_occ_removeFileKeys.
Qed.

Lemma count_occ_Permutation (l k : list Z) (x : Z) :
  l ≡ₚ k -> count_occ Z.eq_dec l x = count_occ Z.eq_dec k x.
Proof. intros Hperm. by apply (Permutation_count_occ Z.eq_dec). Qed.

Lemma removeFileKeys_proper l l' keys keys' :
  l ≡ₚ l' -> keys ≡ₚ keys' ->
  removeFileKeys l keys ≡ₚ removeFileKeys l' keys'.
Proof.
  intros Hl Hkeys. apply removeFileKeys_by_count. intros k.
  rewrite count_occ_removeFileKeys.
  by rewrite (count_occ_Permutation _ _ k Hl),
    (count_occ_Permutation _ _ k Hkeys).
Qed.

Lemma sumZ_sizes_Permutation m (l k : list Z) :
  l ≡ₚ k -> sumZ (map (fileSize m) l) = sumZ (map (fileSize m) k).
Proof. intros Hperm. by apply sumZ_Permutation, Permutation_map. Qed.

Lemma attributedSize_sum m all parent this par active :
  attributedSize m all parent this par active
  = int64.wrap
      (sumZ (map (fileSize m) (pruneFileKeys all parent this par))
       + (if active
          then sumZ (map (fileSize m) (removeFileKeys all this))
          else 0)).
Proof.
  unfold attributedSize. rewrite addFileSizes_from_zero.
  destruct active.
  - by rewrite addFileSizes_wrapped.
  - by rewrite Z.add_0_r.
Qed.

(** X9.  The size attributed to a node does not depend on the order in
    which the file keys were collected: permuting the keys of the
    attached disks, of the snapshot or of its parent leaves it unchanged. *)
Theorem attributed_size_order_independent (m : gmap Z FileInfo.t)
  (all all' this this' par par' : list Z)
  (parent : option ManagedObjectReference.t) (active : bool) :
  all ≡ₚ all' -> this ≡ₚ this' -> par ≡ₚ par' ->
  attributedSize m all parent this par active
  = attributedSize m all' parent this' par' active.
Proof.
  intros Hall Hthis Hpar. rewrite !attributedSize_sum. f_equal. f_equal.
  - apply sumZ_sizes_Permutation. unfold pruneFileKeys.
    destruct parent; by apply removeFileKeys_proper.
  - destruct active; [|done].
    apply sumZ_sizes_Permutation. by apply removeFileKeys_proper.
Qed.

Lemma attributed_size_order_independent_witness :
  [1; 2; 3] ≡ₚ [3; 1; 2] /\ [9; 1] ≡ₚ [1; 9] /\ @nil Z ≡ₚ []
  /\ attributedSize (fileKeyMap layoutRoot) [1; 2; 3] None [9; 1] [] true
     = attributedSize (fileKeyMap layoutRoot) [3; 1; 2] None [1; 9] [] true.
Proof.
  assert (H1 : [1; 2; 3] ≡ₚ [3; 1; 2]).
  { symmetry. apply (Permutation_cons_append [1; 2] 3). }
  assert (H2 : [9; 1] ≡ₚ [1; 9]) by apply perm_swap.
  assert (H3 : @nil Z ≡ₚ []) by apply perm_nil.
  split; [exact H1|]. split; [exact H2|]. split; [exact H3|].
  exact (attributed_size_order_independent (fileKeyMap layoutRoot)
           _ _ _ _ _ _ None true H1 H2 H3).
Defined.

Lemma removeFileKeys_nil_l keys : removeFileKeys [] keys = [].
Proof. unfold removeFileKeys. induction keys as [|k keys IH]; [done|]. exact IH. Qed.

(** X10.  A node for which the machine has no snapshot layout entry is
    attributed nothing, unless it is the active snapshot: then it is
    attributed the files of all the attached disks. *)
Theorem node_without_layout (env : CrawlEnv)
  (current : ManagedObjectReference.t)
  (parent : option ManagedObjectReference.t)
  (snapshot : ManagedObjectReference.t) :
  layoutsOf (FileLayoutEx.Snapshot (envLayoutEx env)) snapshot = [] ->
  snapshotSizeOf env current parent snapshot
  = if sameValue snapshot current
    then int64.wrap (sumZ (map (fileSize (fileKeyMap (envLayoutEx env)))
                               (vmAllDiskFileKeys (envLayoutEx env))))
    else 0.
Proof.
  intros Hnone. rewrite snapshotSizeOf_unfold, attributedSize_sum.
  unfold thisSnapshotKeys. rewrite Hnone. cbn [flat_map].
  assert (Hpruned :
    pruneFileKeys (vmAllDiskFileKeys (envLayoutEx env)) parent []
      (parentDiskKeys (FileLayoutEx.Snapshot (envLayoutEx env)) parent) = []).
  { unfold pruneFileKeys. destruct parent; apply removeFileKeys_nil_l. }
  rewrite Hpruned. cbn [map sumZ foldr].
  destruct (sameValue snapshot current); [|done].
  by rewrite Z.add_0_l.
Qed.

(** The active root snapshot [snapshot-2] of the sample machine has no
    layout entry. *)
Lemma node_without_layout_witness :
  layoutsOf (FileLayoutEx.Snapshot (envLayoutEx envRoot)) (ref "snapshot-2") = []
  /\ snapshotSizeOf envRoot (ref "snapshot-2") None (ref "snapshot-2") = 3000.
Proof.
  split; [reflexivity|].
  rewrite (node_without_layout envRoot (ref "snapshot-2") None
             (ref "snapshot-2") eq_refl).
  reflexivity.
Defined.

Lemma count_occ_disjoint (rest data : list Z) (k : Z) :
  (forall x, In x rest -> ~ In x data) ->
  count_occ Z.eq_dec rest k = 0%nat \/ count_occ Z.eq_dec data k = 0%nat.
Proof.
  intros Hdisjoint. destruct (in_dec Z.eq_dec k rest) as [Hin|Hnin].
  - right. by apply count_occ_not_In, Hdisjoint.
  - left. by apply count_occ_not_In.
Qed.

Lemma count_occ_thisSnapshotKeys snapLayouts snapshot k :
  count_occ Z.eq_dec (thisSnapshotKeys snapLayouts snapshot) k
  = (count_occ Z.eq_dec (snapshotChainKeys snapLayouts snapshot) k
     + count_occ Z.eq_dec (snapshotDataKeys snapLayouts snapshot) k)%nat.
Proof.
  rewrite (count_occ_Permutation _ _ k
             (thisSnapshotKeys_Permutation snapLayouts snapshot)).
  apply count_occ_app.
Qed.

Lemma sumZ_sizes_app m (l k : list Z) :
  sumZ (map (fileSize m) (l ++ k))
  = sumZ (map (fileSize m) l) + sumZ (map (fileSize m) k).
Proof. by rewrite map_app, sumZ_app. Qed.

(** X11.  A root snapshot whose disk chain is part of the chains attached
    to the machine, its data files being none of the other attached
    files, is attributed its data files, and, when it is the active
    snapshot, the other attached files as well. *)
Theorem root_snapshot_attribution (env : CrawlEnv)
  (current snapshot : ManagedObjectReference.t) (rest : list Z) :
  let snapLayouts := FileLayoutEx.Snapshot (envLayoutEx env) in
  let data := snapshotDataKeys snapLayouts snapshot in
  vmAllDiskFileKeys (envLayoutEx env)
    ≡ₚ snapshotChainKeys snapLayouts snapshot ++ rest ->
  (forall k, In k rest -> ~ In k data) ->
  snapshotSizeOf env current None snapshot
  = int64.wrap
      (sumZ (map (fileSize (fileKeyMap (envLayoutEx env)))
                 (data ++ if sameValue snapshot current then rest else []))).
Proof.
  intros snapLayouts data Hall Hdisjoint.
  rewrite snapshotSizeOf_unfold, attributedSize_sum. fold snapLayouts.
  unfold pruneFileKeys.
  assert (Hpruned :
    removeFileKeys (thisSnapshotKeys snapLayouts snapshot)
                   (vmAllDiskFileKeys (envLayoutEx env)) ≡ₚ data).
  { apply removeFileKeys_by_count. intros k.
    rewrite count_occ_thisSnapshotKeys,
      (count_occ_Permutation _ _ k Hall), count_occ_app.
    fold data. destruct (count_occ_disjoint rest data k Hdisjoint); lia. }
  assert (Hremaining :
    removeFileKeys (vmAllDiskFileKeys (envLayoutEx env))
                   (thisSnapshotKeys snapLayouts snapshot) ≡ₚ rest).
  { apply removeFileKeys_by_count. intros k.
    rewrite count_occ_thisSnapshotKeys,
      (count_occ_Permutation _ _ k Hall), count_occ_app.
    fold data. destruct (count_occ_disjoint rest data k Hdisjoint); lia. }
  rewrite (sumZ_sizes_Permutation _ _ _ Hpruned), sumZ_sizes_app.
  destruct (sameValue snapshot current).
  - by rewrite (sumZ_sizes_Permutation _ _ _ Hremaining).
  - done.
Qed.

(** The root snapshot [S1] of the scenario: its chain is the base disk,
    the two later files of the attached chain are the rest. *)
Lemma root_snapshot_attribution_witness :
  vmAllDiskFileKeys (envLayoutEx scenarioEnv)
    ≡ₚ snapshotChainKeys (FileLayoutEx.Snapshot (envLayoutEx scenarioEnv))
                         (ref "S1") ++ [2; 3]
  /\ (forall k, In k [2; 3] ->
        ~ In k (snapshotDataKeys
                  (FileLayoutEx.Snapshot (envLayoutEx scenarioEnv)) (ref "S1")))
  /\ snapshotSizeOf scenarioEnv (ref "S2") None (ref "S1") = 2 * 1024 ^ 3.
Proof.
  assert (Hall :
    vmAllDiskFileKeys (envLayoutEx scenarioEnv)
    ≡ₚ snapshotChainKeys (FileLayoutEx.Snapshot (envLayoutEx scenarioEnv))
                         (ref "S1") ++ [2; 3])
    by (vm_compute; apply Permutation_refl).
  assert (Hdisjoint :
    forall k, In k [2; 3] ->
      ~ In k (snapshotDataKeys
                (FileLayoutEx.Snapshot (envLayoutEx scenarioEnv)) (ref "S1"))).
  { intros k Hk Hin. vm_compute in Hk, Hin.
    destruct Hin as [<-|[]]. destruct Hk as [Hk|[Hk|[]]]; discriminate Hk. }
  split; [exact Hall|]. split; [exact Hdisjoint|].
  rewrite (root_snapshot_attribution scenarioEnv (ref "S2") (ref "S1")
             [2; 3] Hall Hdisjoint).
  reflexivity.
Defined.

(** X12.  A snapshot with a parent, whose disk chain is the parent's
    chain and some further files, is attributed its data files and those
    further files; when it is the active snapshot and the chains attached
    to the machine are its own chain and some live files, none of them a
    data file of the snapshot, it is attributed the live files as well. *)
Theorem child_snapshot_attribution (env : CrawlEnv)
  (current parent snapshot : ManagedObjectReference.t) (delta live : list Z) :
  let snapLayouts := FileLayoutEx.Snapshot (envLayoutEx env) in
  let data := snapshotDataKeys snapLayouts snapshot in
  snapshotChainKeys snapLayouts snapshot
    ≡ₚ parentDiskKeys snapLayouts (Some parent) ++ delta ->
  (sameValue snapshot current = true ->
   vmAllDiskFileKeys (envLayoutEx env)
     ≡ₚ snapshotChainKeys snapLayouts snapshot ++ live
   /\ forall k, In k live -> ~ In k data) ->
  snapshotSizeOf env current (Some parent) snapshot
  = int64.wrap
      (sumZ (map (fileSize (fileKeyMap (envLayoutEx env)))
                 (data ++ delta
                  ++ if sameValue snapshot current then live else []))).
Proof.
  intros snapLayouts data Hchain Hactive.
  rewrite snapshotSizeOf_unfold, attributedSize_sum. fold snapLayouts.
  unfold pruneFileKeys.
  assert (Hpruned :
    removeFileKeys (thisSnapshotKeys snapLayouts snapshot)
                   (parentDiskKeys snapLayouts (Some parent))
    ≡ₚ data ++ delta).
  { apply removeFileKeys_by_count. intros k.
    rewrite count_occ_thisSnapshotKeys,
      (count_occ_Permutation _ _ k Hchain), !count_occ_app.
    fold data. lia. }
  rewrite (sumZ_sizes_Permutation _ _ _ Hpruned), !sumZ_sizes_app.
  destruct (sameValue snapshot current).
  - destruct (Hactive eq_refl) as [Hall Hdisjoint].
    assert (Hremaining :
      removeFileKeys (vmAllDiskFileKeys (envLayoutEx env))
                     (thisSnapshotKeys snapLayouts snapshot) ≡ₚ live).
    { apply removeFileKeys_by_count. intros k.
      rewrite count_occ_thisSnapshotKeys,
        (count_occ_Permutation _ _ k Hall), count_occ_app.
      fold data. destruct (count_occ_disjoint live data k Hdisjoint); lia. }
    rewrite (sumZ_sizes_Permutation _ _ _ Hremaining). f_equal. lia.
  - cbn [map sumZ foldr]. f_equal. lia.
Qed.

(** The active snapshot [S2] of the scenario, child of [S1]: file 2 is
    what its chain adds to the parent's, file 3 is live. *)
Lemma child_snapshot_attribution_witness :
  let snapLayouts := FileLayoutEx.Snapshot (envLayoutEx scenarioEnv) in
  snapshotChainKeys snapLayouts (ref "S2")
    ≡ₚ parentDiskKeys snapLayouts (Some (ref "S1")) ++ [2]
  /\ snapshotSizeOf scenarioEnv (ref "S2") (Some (ref "S1")) (ref "S2")
     = 3 * 512 * 1024 ^ 2.
Proof.
  intros snapLayouts.
  assert (Hchain :
    snapshotChainKeys snapLayouts (ref "S2")
    ≡ₚ parentDiskKeys snapLayouts (Some (ref "S1")) ++ [2])
    by (vm_compute; apply Permutation_refl).
  assert (Hactive :
    sameValue (ref "S2") (ref "S2") = true ->
    vmAllDiskFileKeys (envLayoutEx scenarioEnv)
      ≡ₚ snapshotChainKeys snapLayouts (ref "S2") ++ [3]
    /\ forall k, In k [3] ->
         ~ In k (snapshotDataKeys snapLayouts (ref "S2"))).
  { intros _. split; [vm_compute; apply Permutation_refl|].
    intros k Hk Hin. vm_compute in Hk, Hin.
    destruct Hin as [<-|[]]. destruct Hk as [Hk|[]]; discriminate Hk. }
  split; [exact Hchain|].
  rewrite (child_snapshot_attribution scenarioEnv (ref "S2") (ref "S1")
             (ref "S2") [2] [3] Hchain Hactive).
  reflexivity.
Defined.

(** ** The file index *)

Lemma fileKeyMap_fold (files : list FileInfo.t) (m : gmap Z FileInfo.t) (k : Z) :
  foldl (fun m fileLayout => <[FileInfo.Key fileLayout := fileLayout]> m)
        m files !! k
  = match List.find (fun f => FileInfo.Key f =? k) (rev files) with
    | Some f => Some f
    | None => m !! k
    end.
Proof.
  induction files as [|f files IH] using rev_ind; [done|].
  rewrite foldl_app, rev_app_distr. cbn [foldl rev app List.find].
  destruct (Z.eqb_spec (FileInfo.Key f) k) as [->|Hne].
  - by rewrite lookup_insert_eq.
  - by rewrite lookup_insert_ne.
Qed.

(** X13.  The file index answers a key with the last file of the layout
    that carries the key; a key that no file carries has size zero. *)
Theorem fileKeyMap_last_write_wins (layoutEx : FileLayoutEx.t) (k : Z) :
  fileKeyMap layoutEx !! k
  = List.find (fun f => FileInfo.Key f =? k) (rev (FileLayoutEx.File layoutEx))
  /\ ((forall f, In f (FileLayoutEx.File layoutEx) -> FileInfo.Key f <> k) ->
      fileSize (fileKeyMap layoutEx) k = 0)
  /\ (forall f, fileKeyMap layoutEx !! k = Some f ->
        In f (FileLayoutEx.File layoutEx) /\ FileInfo.Key f = k).
Proof.
  unfold fileKeyMap, fileSize.
  rewrite fileKeyMap_fold, lookup_empty.
  split; [by destruct (List.find _ _)|].
  split.
  - intros Hnone.
    destruct (List.find _ _) as [f|] eqn:Hfind; [|done].
    apply find_some in Hfind as [Hin Hkey]. apply in_rev in Hin.
    apply Z.eqb_eq in Hkey. by destruct (Hnone f Hin).
  - intros f Hf.
    destruct (List.find _ _) as [g|] eqn:Hfind; [|done].
    injection Hf as ->.
    apply find_some in Hfind as [Hin Hkey]. apply in_rev in Hin.
    by apply Z.eqb_eq in Hkey.
Qed.

(** ** What [NewSnapshotSummarySet] returns, and when *)

(** X14.  [NewSnapshotSummarySet] fails (by a nil pointer dereference)
    exactly when the machine has no snapshot information, or no file
    layout, or has a root snapshot and no current snapshot reference; a
    machine with snapshot information, a layout and an empty forest gets
    a set without snapshots whatever the reference. *)
Theorem NewSnapshotSummarySet_fails_iff `{Clock} (vm : VirtualMachine.t)
  (ageC ageW sizeC sizeW : Z) :
  NewSnapshotSummarySet vm ageC ageW sizeC sizeW = None
  <-> VirtualMachine.Snapshot vm = None
      \/ VirtualMachine.LayoutEx vm = None
      \/ exists snapshotInfo,
           VirtualMachine.Snapshot vm = Some snapshotInfo
           /\ SnapshotInfo.CurrentSnapshot snapshotInfo = None
           /\ SnapshotInfo.RootSnapshotList snapshotInfo <> [].
Proof.
  unfold NewSnapshotSummarySet.
  destruct (VirtualMachine.Snapshot vm) as [snapshotInfo|];
    [|split; [by left | done]].
  destruct (VirtualMachine.LayoutEx vm) as [layoutEx|];
    [|split; [by right; left | done]].
  fold (envOf (VirtualMachine.Name vm) snapshotInfo layoutEx ageC ageW sizeC sizeW).
  destruct (SnapshotInfo.CurrentSnapshot snapshotInfo) as [current|] eqn:Hcur.
  - rewrite (crawlFunc_preorder
               (envOf (VirtualMachine.Name vm) snapshotInfo layoutEx
                      ageC ageW sizeC sizeW) current Hcur).
    split; [done|].
    intros [?|[?|(info & [= <-] & Hnone & _)]]; [done|done|congruence].
  - destruct (SnapshotInfo.RootSnapshotList snapshotInfo) as [|root roots] eqn:Hroots.
    + cbn [crawlFunc forRange]. split; [done|].
      intros [?|[?|(info & [= <-] & _ & Hne)]]; [done|done|].
      by rewrite Hroots in Hne.
    + rewrite crawlFunc_panics by exact Hcur.
      split; [|done]. intros _. right. right. exists snapshotInfo.
      by rewrite Hroots.
Qed.

(** X15.  On a machine with snapshot information, a file layout and a
    current snapshot reference, [NewSnapshotSummarySet] returns a set with
    one summary per node of the forest, in depth-first pre-order; the
    summary of a node copies its name, id, reference value, description
    and creation time, and its size is the size attributed to the node
    with its parent in the forest as context (none for a root). *)
Theorem walk_summaries_follow_forest `{Clock} (vm : VirtualMachine.t)
  snapshotInfo layoutEx current (ageC ageW sizeC sizeW : Z) :
  VirtualMachine.Snapshot vm = Some snapshotInfo ->
  VirtualMachine.LayoutEx vm = Some layoutEx ->
  SnapshotInfo.CurrentSnapshot snapshotInfo = Some current ->
  let env := envOf (VirtualMachine.Name vm) snapshotInfo layoutEx
                   ageC ageW sizeC sizeW in
  exists set,
    NewSnapshotSummarySet vm ageC ageW sizeC sizeW = Some set
    /\ length (SnapshotSummarySet.Snapshots set)
       = nodeCount (SnapshotInfo.RootSnapshotList snapshotInfo)
    /\ Forall2
         (fun visit snap =>
            let '(parent, node) := visit in
            SnapshotSummary.Name snap = SnapshotTree.Name node
            /\ SnapshotSummary.ID snap = SnapshotTree.Id node
            /\ SnapshotSummary.MOID snap
               = ManagedObjectReference.Value (SnapshotTree.Snapshot node)
            /\ SnapshotSummary.Description snap = SnapshotTree.Description node
            /\ SnapshotSummary.createTime snap = SnapshotTree.CreateTime node
            /\ SnapshotSummary.Size snap
               = snapshotSizeOf env current parent (SnapshotTree.Snapshot node))
         (preorder None (SnapshotInfo.RootSnapshotList snapshotInfo))
         (SnapshotSummarySet.Snapshots set).
Proof.
  intros Hinfo Hlayout Hcur env. eexists. split.
  - by apply NewSnapshotSummarySet_returns.
  - cbn [SnapshotSummarySet.Snapshots]. split.
    + by rewrite length_map, length_preorder.
    + induction (preorder None (SnapshotInfo.RootSnapshotList snapshotInfo))
        as [|[parent node] visits IH]; constructor; [|exact IH].
      by repeat split.
Qed.

(** The machine of the scenario, whose forest has two nodes. *)
Lemma walk_summaries_follow_forest_witness :
  let clock := time.utcClock scenarioNow in
  exists set,
    NewSnapshotSummarySet scenarioVM 60 30 20 10 = Some set
    /\ length (SnapshotSummarySet.Snapshots set) = 2%nat.
Proof.
  intros clock.
  destruct (VirtualMachine.Snapshot scenarioVM) as [snapshotInfo|] eqn:Hinfo;
    [|discriminate Hinfo].
  destruct (VirtualMachine.LayoutEx scenarioVM) as [layoutEx|] eqn:Hlayout;
    [|discriminate Hlayout].
  injection Hinfo as <-. injection Hlayout as <-.
  destruct (walk_summaries_follow_forest scenarioVM _ _ (ref "S2") 60 30 20 10
              eq_refl eq_refl eq_refl) as (set & Hset & Hlen & _).
  exists set. split; [exact Hset | exact Hlen].
Defined.

(** X16.  In a returned set the machine reference and name are those of
    the machine, every summary carries the machine's name, and the age
    flags of every summary are what [IsAgeExceeded] answers for the
    summary at the warning and at the critical number of days, read at
    the same clock instant. *)
Theorem emitted_summaries_carry_machine_and_age `{Clock}
  (vm : VirtualMachine.t) (ageC ageW sizeC sizeW : Z)
  (set : SnapshotSummarySet.t) :
  NewSnapshotSummarySet vm ageC ageW sizeC sizeW = Some set ->
  SnapshotSummarySet.VM set = VirtualMachine.Self vm
  /\ SnapshotSummarySet.VMName set = VirtualMachine.Name vm
  /\ List.Forall
       (fun snap =>
          SnapshotSummary.VMName snap = VirtualMachine.Name vm
          /\ SnapshotSummary.ageWarningState snap
             = SnapshotSummary.IsAgeExceeded snap ageW
          /\ SnapshotSummary.ageCriticalState snap
             = SnapshotSummary.IsAgeExceeded snap ageC)
       (SnapshotSummarySet.Snapshots set).
Proof.
  intros Hset. split; [|split; [|by eapply emitted_fields]].
  - unfold NewSnapshotSummarySet in Hset.
    destruct (VirtualMachine.Snapshot vm), (VirtualMachine.LayoutEx vm);
      try done.
    destruct (crawlFunc _ _ _ _); [|done]. by injection Hset as <-.
  - unfold NewSnapshotSummarySet in Hset.
    destruct (VirtualMachine.Snapshot vm), (VirtualMachine.LayoutEx vm);
      try done.
    destruct (crawlFunc _ _ _ _); [|done]. by injection Hset as <-.
Qed.

Lemma emitted_summaries_carry_machine_and_age_witness :
  let clock := time.utcClock scenarioNow in
  exists set,
    NewSnapshotSummarySet scenarioVM 60 30 20 10 = Some set
    /\ SnapshotSummarySet.VMName set = "vm"%string.
Proof.
  intros clock.
  destruct (NewSnapshotSummarySet scenarioVM 60 30 20 10) as [set|] eqn:Hset;
    [|vm_compute in Hset; discriminate Hset].
  exists set. split; [reflexivity|].
  apply (emitted_summaries_carry_machine_and_age scenarioVM 60 30 20 10 set Hset).
Defined.

(** ** From the machines to the verdict *)

Lemma buildSnapshotSets_fold `{Clock} (ageC ageW sizeC sizeW : Z)
  (vms : list VirtualMachine.t) (acc result : SnapshotSummarySets.t) :
  forRange (fun vm snapshotSets =>
              match NewSnapshotSummarySet vm ageC ageW sizeC sizeW with
              | Some set => Some (snapshotSets ++ [set])
              | None => None
              end) vms acc = Some result
  <-> exists sets,
        result = acc ++ sets
        /\ Forall2 (fun vm set =>
                      NewSnapshotSummarySet vm ageC ageW sizeC sizeW = Some set)
                   vms sets.
Proof.
  revert acc. induction vms as [|vm vms IH]; intros acc; cbn [forRange].
  - split.
    + intros [= <-]. exists []. split; [by rewrite app_nil_r | constructor].
    + intros (sets & -> & Hall). inversion Hall. by rewrite app_nil_r.
  - destruct (NewSnapshotSummarySet vm ageC ageW sizeC sizeW) as [set|] eqn:Hset.
    + rewrite IH. split.
      * intros (sets & -> & Hall). exists (set :: sets).
        split; [by rewrite <- app_assoc | by constructor].
      * intros (sets & -> & Hall).
        inversion Hall as [|? set' ? sets' Hset' Hall']; subst.
        rewrite Hset in Hset'. injection Hset' as <-.
        exists sets'. split; [by rewrite <- app_assoc | done].
    + split; [done|]. intros (sets & _ & Hall).
      inversion Hall as [|? set' ? sets' Hset' Hall']; subst. congruence.
Qed.

Lemma buildSnapshotSets_None_fold `{Clock} (ageC ageW sizeC sizeW : Z)
  (vms : list VirtualMachine.t) (acc : SnapshotSummarySets.t) :
  forRange (fun vm snapshotSets =>
              match NewSnapshotSummarySet vm ageC ageW sizeC sizeW with
              | Some set => Some (snapshotSets ++ [set])
              | None => None
              end) vms acc = None
  <-> exists vm,
        In vm vms /\ NewSnapshotSummarySet vm ageC ageW sizeC sizeW = None.
Proof.
  revert acc. induction vms as [|vm vms IH]; intros acc; cbn [forRange].
  - split; [done|]. by intros (vm & [] & _).
  - destruct (NewSnapshotSummarySet vm ageC ageW sizeC sizeW)
      as [set|] eqn:Hset.
    + rewrite IH. split.
      * intros (vm' & Hin & Hnone). exists vm'. split; [by right | done].
      * intros (vm' & [<-|Hin] & Hnone); [congruence|]. by exists vm'.
    + split; [|done]. intros _. exists vm. split; [by left | done].
Qed.

(** X17.  The loop of the plugin over the machines with snapshots returns
    a collection exactly when [NewSnapshotSummarySet] returns a set for
    every machine: the collection then holds these sets, one per machine
    and in the order of the machines; a single machine on which
    [NewSnapshotSummarySet] fails makes the whole run fail. *)
Theorem buildSnapshotSets_one_set_per_machine `{Clock}
  (ageC ageW sizeC sizeW : Z) (vms : list VirtualMachine.t) :
  (forall sets,
      buildSnapshotSets vms ageC ageW sizeC sizeW = Some sets
      <-> Forall2 (fun vm set =>
                     NewSnapshotSummarySet vm ageC ageW sizeC sizeW = Some set)
                  vms sets)
  /\ (buildSnapshotSets vms ageC ageW sizeC sizeW = None
      <-> exists vm,
            In vm vms
            /\ NewSnapshotSummarySet vm ageC ageW sizeC sizeW = None).
Proof.
  split.
  - intros sets. unfold buildSnapshotSets. rewrite buildSnapshotSets_fold.
    split.
    + by intros (sets' & -> & Hall).
    + intros Hall. by exists sets.
  - unfold buildSnapshotSets. apply buildSnapshotSets_None_fold.
Qed.

Lemma built_age_of_nodes `{Clock} (vm : VirtualMachine.t)
  (ageC ageW sizeC sizeW : Z) (set : SnapshotSummarySet.t) :
  NewSnapshotSummarySet vm ageC ageW sizeC sizeW = Some set ->
  existsb SnapshotSummary.ageCriticalState (SnapshotSummarySet.Snapshots set)
  = existsb (fun node => ExceedsAge (SnapshotTree.CreateTime node) ageC)
            (forestNodes vm)
  /\ existsb SnapshotSummary.ageWarningState (SnapshotSummarySet.Snapshots set)
     = existsb (fun node => ExceedsAge (SnapshotTree.CreateTime node) ageW)
               (forestNodes vm).
Proof.
  intros Hset.
  apply NewSnapshotSummarySet_Some in Hset
    as (snapshotInfo & layoutEx & Hinfo & _ & Hcrawl & _).
  unfold forestNodes. rewrite Hinfo.
  apply crawl_result_cases in Hcrawl
    as [(current & _ & ->)|(_ & Hroots & ->)].
  - cbn [envSnapshotInfo envOf].
    induction (preorder None (SnapshotInfo.RootSnapshotList snapshotInfo))
      as [|visit visits [IHc IHw]]; [done|].
    cbn [map existsb]. by rewrite IHc, IHw.
  - cbn [envSnapshotInfo envOf] in Hroots. by rewrite Hroots.
Qed.

Lemma built_sets_age_of_nodes `{Clock} (ageC ageW sizeC sizeW : Z)
  (vms : list VirtualMachine.t) (sets : SnapshotSummarySets.t) :
  Forall2 (fun vm set =>
             NewSnapshotSummarySet vm ageC ageW sizeC sizeW = Some set)
          vms sets ->
  SnapshotSummarySets.IsAgeCriticalState sets
  = existsb (fun vm =>
               existsb (fun node => ExceedsAge (SnapshotTree.CreateTime node) ageC)
                       (forestNodes vm)) vms
  /\ SnapshotSummarySets.IsAgeWarningState sets
     = existsb (fun vm =>
                  existsb (fun node => ExceedsAge (SnapshotTree.CreateTime node) ageW)
                          (forestNodes vm)) vms.
Proof.
  induction 1 as [|vm set vms sets Hset _ [IHc IHw]]; [done|].
  destruct (built_age_of_nodes vm ageC ageW sizeC sizeW set Hset) as [Hc Hw].
  unfold SnapshotSummarySets.IsAgeCriticalState,
    SnapshotSummarySets.IsAgeWarningState in *.
  cbn [existsb].
  unfold SnapshotSummarySet.IsAgeCriticalState at 1,
    SnapshotSummarySet.IsAgeWarningState at 1,
    SnapshotSummary.IsAgeCriticalState, SnapshotSummary.IsAgeWarningState.
  split.
  - rewrite <- IHc, <- Hc. reflexivity.
  - rewrite <- IHw, <- Hw. reflexivity.
Qed.

Lemma someSnapshotOlder_existsb `{Clock} (vms : list VirtualMachine.t) days :
  existsb (fun vm =>
             existsb (fun node => ExceedsAge (SnapshotTree.CreateTime node) days)
                     (forestNodes vm)) vms = true
  <-> someSnapshotOlder vms days.
Proof.
  unfold someSnapshotOlder. rewrite existsb_exists. split.
  - intros (vm & Hvm & Hex). apply existsb_exists in Hex as (node & ? & ?).
    by exists vm, node.
  - intros (vm & node & Hvm & Hnode & Hold). exists vm. split; [done|].
    apply existsb_exists. by exists node.
Qed.

(** X18.  When the plugin has built its collection from a list of
    machines, its exit code is CRITICAL exactly when some snapshot of
    some machine is older than the critical number of days, WARNING
    exactly when none is and some snapshot is older than the warning
    number of days, and OK exactly when no snapshot is older than either. *)
Theorem age_check_verdict_of_machines `{Clock} (ageC ageW sizeC sizeW : Z)
  (vms : list VirtualMachine.t) (sets : SnapshotSummarySets.t) :
  buildSnapshotSets vms ageC ageW sizeC sizeW = Some sets ->
  (ExitStatusCode sets = nagios.StateCRITICALExitCode
   <-> someSnapshotOlder vms ageC)
  /\ (ExitStatusCode sets = nagios.StateWARNINGExitCode
      <-> ~ someSnapshotOlder vms ageC /\ someSnapshotOlder vms ageW)
  /\ (ExitStatusCode sets = nagios.StateOKExitCode
      <-> ~ someSnapshotOlder vms ageC /\ ~ someSnapshotOlder vms ageW).
Proof.
  intros Hsets. unfold buildSnapshotSets in Hsets.
  apply buildSnapshotSets_fold in Hsets as (sets' & -> & Hall).
  cbn [app]. destruct (built_sets_age_of_nodes _ _ _ _ _ _ Hall) as [Hc Hw].
  rewrite <- !someSnapshotOlder_existsb, <- Hc, <- Hw.
  unfold ExitStatusCode.
  destruct (SnapshotSummarySets.IsAgeCriticalState sets');
    destruct (SnapshotSummarySets.IsAgeWarningState sets');
    cbv [nagios.StateCRITICALExitCode nagios.StateWARNINGExitCode
         nagios.StateOKExitCode];
    repeat split; try discriminate; try tauto; try congruence;
    intros [? ?]; congruence.
Qed.

(** The machine of the scenario: [S1] is 40 days old, the check reports
    WARNING. *)
Lemma age_check_verdict_of_machines_witness :
  let clock := time.utcClock scenarioNow in
  exists sets,
    buildSnapshotSets [scenarioVM] 60 30 20 10 = Some sets
    /\ ~ someSnapshotOlder [scenarioVM] 60
    /\ someSnapshotOlder [scenarioVM] 30.
Proof.
  intros clock.
  destruct (buildSnapshotSets [scenarioVM] 60 30 20 10) as [sets|] eqn:Hsets;
    [|vm_compute in Hsets; discriminate Hsets].
  exists sets. split; [reflexivity|].
  destruct (age_check_verdict_of_machines 60 30 20 10 [scenarioVM] sets Hsets)
    as (_ & Hwarning & _).
  apply Hwarning.
  pose proof Hsets as Hsets'. vm_compute in Hsets'. injection Hsets' as <-.
  reflexivity.
Defined.

(** ** Machines with snapshots *)

Lemma FilterVMsWithSnapshots_fold (isNil : SnapshotInfo.t -> bool)
  (vms acc : list VirtualMachine.t) :
  foldl (fun vmsWithSnapshots vm =>
           match VirtualMachine.Snapshot vm with
           | Some snapshotInfo =>
               if negb (isNil snapshotInfo)
               then vmsWithSnapshots ++ [vm]
               else vmsWithSnapshots
           | None => vmsWithSnapshots
           end) acc vms
  = acc ++ List.filter (hasRootSnapshotList isNil) vms.
Proof.
  revert acc. induction vms as [|vm vms IH]; intros acc; simpl.
  - by rewrite app_nil_r.
  - rewrite IH. unfold hasRootSnapshotList.
    destruct (VirtualMachine.Snapshot vm) as [snapshotInfo|]; [|done].
    destruct (negb (isNil snapshotInfo)); [|done].
    by rewrite <- app_assoc.
Qed.

Lemma filter_idempotent {A : Type} (p : A -> bool) (l : list A) :
  List.filter p (List.filter p l) = List.filter p l.
Proof.
  induction l as [|x l IH]; [done|]. simpl.
  destruct (p x) eqn:Hp; [|done]. simpl. by rewrite Hp, IH.
Qed.

Lemma filter_sublist_weaker {A : Type} (p q : A -> bool) (l : list A) :
  (forall x, p x = true -> q x = true) ->
  sublist (List.filter p l) (List.filter q l).
Proof.
  intros Hpq. induction l as [|x l IH]; simpl; [constructor|].
  destruct (p x) eqn:Hp.
  - rewrite (Hpq x Hp). by apply sublist_skip.
  - destruct (q x); [by apply sublist_cons | exact IH].
Qed.

Lemma preorder_nil_iff parent (snapTrees : list SnapshotTree.t) :
  preorder parent snapTrees = [] <-> snapTrees = [].
Proof.
  split; [|by intros ->].
  destruct snapTrees as [|root roots]; [done|].
  unfold preorder. cbn [flat_map]. destruct root. cbn [preorderTree]. done.
Qed.

(** X19.  [FilterVMsWithSnapshots] keeps, in their order, exactly the
    machines that have snapshot information with a list of root snapshots
    that is not nil; filtering again changes nothing; as a nil list has
    no element, no machine with a snapshot is dropped; and a set that
    [NewSnapshotSummarySet] returns for a machine it kept is without
    snapshot exactly when the list of roots, though not nil, is empty. *)
Theorem FilterVMsWithSnapshots_keeps_machines_with_snapshots `{Clock}
  (isNil : SnapshotInfo.t -> bool) (vms : list VirtualMachine.t)
  (ageC ageW sizeC sizeW : Z) :
  nilHasNoElement isNil ->
  FilterVMsWithSnapshots isNil vms
  = List.filter (hasRootSnapshotList isNil) vms
  /\ FilterVMsWithSnapshots isNil (FilterVMsWithSnapshots isNil vms)
     = FilterVMsWithSnapshots isNil vms
  /\ sublist (List.filter hasSnapshots vms) (FilterVMsWithSnapshots isNil vms)
  /\ (forall vm set,
        In vm (FilterVMsWithSnapshots isNil vms) ->
        NewSnapshotSummarySet vm ageC ageW sizeC sizeW = Some set ->
        exists snapshotInfo,
          VirtualMachine.Snapshot vm = Some snapshotInfo
          /\ isNil snapshotInfo = false
          /\ (SnapshotSummarySet.Snapshots set = []
              <-> SnapshotInfo.RootSnapshotList snapshotInfo = [])).
Proof.
  intros Hnil.
  assert (Hfilter : forall l,
    FilterVMsWithSnapshots isNil l = List.filter (hasRootSnapshotList isNil) l).
  { intros l. unfold FilterVMsWithSnapshots.
    by rewrite FilterVMsWithSnapshots_fold. }
  split; [apply Hfilter|].
  split; [by rewrite !Hfilter, filter_idempotent|].
  split.
  - rewrite Hfilter. apply filter_sublist_weaker.
    intros vm. unfold hasSnapshots, hasRootSnapshotList.
    destruct (VirtualMachine.Snapshot vm) as [snapshotInfo|]; [|done].
    destruct (isNil snapshotInfo) eqn:Hvm; [|done].
    by rewrite (Hnil _ Hvm).
  - intros vm set Hin Hset. rewrite Hfilter in Hin.
    apply filter_In in Hin as [_ Hkept]. unfold hasRootSnapshotList in Hkept.
    apply NewSnapshotSummarySet_Some in Hset
      as (snapshotInfo & layoutEx & Hinfo & _ & Hcrawl & _).
    rewrite Hinfo in Hkept. exists snapshotInfo.
    split; [done|]. split; [by destruct (isNil snapshotInfo)|].
    apply crawl_result_cases in Hcrawl
      as [(current & _ & ->)|(_ & Hroots & ->)];
      cbn [envSnapshotInfo envOf] in *.
    + split.
      * intros Hempty. apply map_eq_nil in Hempty.
        by apply preorder_nil_iff in Hempty.
      * by intros ->.
    + by rewrite Hroots.
Qed.

(** A machine that never had a snapshot, one with an empty list of roots
    and the machine of the scenario: the first is dropped, the second is
    kept and gets a set without snapshot. *)
Lemma FilterVMsWithSnapshots_keeps_machines_with_snapshots_witness :
  let clock := time.utcClock scenarioNow in
  nilHasNoElement sampleIsNil
  /\ FilterVMsWithSnapshots sampleIsNil
       [vmNeverSnapshotted; vmEmptyRootList; scenarioVM]
     = [vmEmptyRootList; scenarioVM]
  /\ sublist (List.filter hasSnapshots
                [vmNeverSnapshotted; vmEmptyRootList; scenarioVM])
             (FilterVMsWithSnapshots sampleIsNil
                [vmNeverSnapshotted; vmEmptyRootList; scenarioVM])
  /\ exists set,
       NewSnapshotSummarySet vmEmptyRootList 60 30 20 10 = Some set
       /\ SnapshotSummarySet.Snapshots set = [].
Proof.
  intros clock.
  assert (Hnil : nilHasNoElement sampleIsNil).
  { intros snapshotInfo. unfold sampleIsNil.
    destruct (SnapshotInfo.CurrentSnapshot snapshotInfo); [done|].
    by destruct (SnapshotInfo.RootSnapshotList snapshotInfo). }
  destruct (FilterVMsWithSnapshots_keeps_machines_with_snapshots sampleIsNil
              [vmNeverSnapshotted; vmEmptyRootList; scenarioVM]
              60 30 20 10 Hnil) as (Hkept & _ & Hsub & Hsets).
  split; [exact Hnil|]. split; [rewrite Hkept; reflexivity|].
  split; [exact Hsub|].
  destruct (NewSnapshotSummarySet vmEmptyRootList 60 30 20 10)
    as [set|] eqn:Hset; [|vm_compute in Hset; discriminate Hset].
  exists set. split; [reflexivity|].
  destruct (Hsets vmEmptyRootList set) as (snapshotInfo & Hinfo & _ & Hempty).
  - rewrite Hkept.
    change (In vmEmptyRootList [vmEmptyRootList; scenarioVM]). by left.
  - exact Hset.
  - apply Hempty. injection Hinfo as <-. reflexivity.
Defined.

(** ** States and grouping *)



(** ** Removing one key *)

(** X21.  [removeFileKey] takes out the first occurrence of the key and
    nothing else: the keys before it and after it stay, in order; a list
    without the key is returned as it is. *)
Theorem removeFileKey_first_occurrence (before after : list Z) (key : Z) :
  ~ In key before ->
  removeFileKey (before ++ key :: after) key = before ++ after
  /\ removeFileKey before key = before.
Proof.
  intros Hnot. split; [|by apply removeFileKey_not_In].
  induction before as [|k before IH]; simpl.
  - by rewrite Z.eqb_refl.
  - destruct (Z.eqb_spec k key) as [->|Hne].
    + exfalso. apply Hnot. by left.
    + f_equal. apply IH. intros Hin. apply Hnot. by right.
Qed.

Lemma removeFileKey_first_occurrence_witness :
  ~ In 7 [1; 2]
  /\ removeFileKey ([1; 2] ++ 7 :: [3; 7]) 7 = [1; 2] ++ [3; 7]
  /\ removeFileKey [1; 2] 7 = [1; 2].
Proof.
  assert (Hnot : ~ In 7 [1; 2]).
  { intros [Heq|[Heq|[]]]; discriminate Heq. }
  split; [exact Hnot|].
  exact (removeFileKey_first_occurrence [1; 2] [3; 7] 7 Hnot).
Defined.

(** ** Ordered thresholds *)

Lemma ExceedsSize_antitone (s g g' : Z) :
  int64.in_range (g * 1024 ^ 3) -> int64.in_range (g' * 1024 ^ 3) ->
  g <= g' -> ExceedsSize s g' = true -> ExceedsSize s g = true.
Proof.
  intros Hg Hg' Hle. unfold ExceedsSize, int64.mul.
  rewrite GB_value, (wrap_in_range _ Hg), (wrap_in_range _ Hg').
  intros Hs. apply Z.gtb_lt in Hs. apply Z.gtb_lt. lia.
Qed.

(** X22.  With a warning threshold not above the critical one, both
    within the range where the threshold in bytes fits an int64, a set
    returned by [NewSnapshotSummarySet] that is size-critical by its
    cumulative size is size-warning as well. *)
Theorem set_size_critical_implies_warning `{Clock} (vm : VirtualMachine.t)
  (ageC ageW sizeC sizeW : Z) (set : SnapshotSummarySet.t) :
  NewSnapshotSummarySet vm ageC ageW sizeC sizeW = Some set ->
  int64.in_range (sizeW * 1024 ^ 3) -> int64.in_range (sizeC * 1024 ^ 3) ->
  sizeW <= sizeC ->
  SnapshotSummarySet.IsSizeCriticalState set = true ->
  SnapshotSummarySet.IsSizeWarningState set = true.
Proof.
  intros Hset HW HC Hle.
  apply NewSnapshotSummarySet_Some in Hset
    as (? & ? & _ & _ & _ & Hwarn & Hcrit).
  unfold SnapshotSummarySet.IsSizeCriticalState,
    SnapshotSummarySet.IsSizeWarningState.
  rewrite Hwarn, Hcrit. by apply ExceedsSize_antitone.
Qed.

(** The machine of the scenario, with snapshots of 3.5 GiB together,
    against a warning threshold of 1 GB and a critical one of 3 GB. *)
Lemma set_size_critical_implies_warning_witness :
  let clock := time.utcClock scenarioNow in
  exists set,
    NewSnapshotSummarySet scenarioVM 60 30 3 1 = Some set
    /\ SnapshotSummarySet.Size set = 3758096384
    /\ 1 <= 3
    /\ ExceedsSize (2 * 1024 ^ 3) 1 = true
    /\ ExceedsSize (2 * 1024 ^ 3) 3 = false
    /\ SnapshotSummarySet.IsSizeCriticalState set = true
    /\ SnapshotSummarySet.IsSizeWarningState set = true.
Proof.
  intros clock.
  destruct (NewSnapshotSummarySet scenarioVM 60 30 3 1) as [set|] eqn:Hset;
    [|vm_compute in Hset; discriminate Hset].
  assert (HrangeW : int64.in_range (1 * 1024 ^ 3)).
  { unfold int64.in_range, int64.min_int, int64.max_int. lia. }
  assert (HrangeC : int64.in_range (3 * 1024 ^ 3)).
  { unfold int64.in_range, int64.min_int, int64.max_int. lia. }
  assert (Hle : 1 <= 3) by lia.
  assert (Hcrit : SnapshotSummarySet.IsSizeCriticalState set = true).
  { pose proof Hset as Hset'. vm_compute in Hset'. by injection Hset' as <-. }
  assert (Hsize : SnapshotSummarySet.Size set = 3758096384).
  { pose proof Hset as Hset'. vm_compute in Hset'. by injection Hset' as <-. }
  exists set. split; [reflexivity|]. split; [exact Hsize|].
  split; [exact Hle|]. split; [reflexivity|]. split; [reflexivity|].
  split; [exact Hcrit|].
  exact (set_size_critical_implies_warning scenarioVM 60 30 3 1 set Hset
           HrangeW HrangeC Hle Hcrit).
Defined.

(** ** Looking a machine up *)

Lemma find_first_match {A : Type} (p : A -> bool) (l : list A) (x : A) :
  List.find p l = Some x
  <-> exists before after,
        l = before ++ x :: after /\ p x = true
        /\ List.Forall (fun y => p y = false) before.
Proof.
  induction l as [|y l IH]; simpl.
  - split; [done|]. intros (before & after & Heq & _). by destruct before.
  - destruct (p y) eqn:Hy.
    + split.
      * intros [= <-]. exists [], l. by repeat split.
      * intros (before & after & Heq & Hx & Hbefore).
        destruct before as [|z before]; simplify_eq/=; [done|].
        inversion Hbefore; congruence.
    + rewrite IH. split.
      * intros (before & after & -> & Hx & Hbefore).
        exists (y :: before), after. repeat split; [done|by constructor].
      * intros (before & after & Heq & Hx & Hbefore).
        destruct before as [|z before]; simplify_eq/=; [congruence|].
        exists before, after. repeat split; [done|by inversion Hbefore].
Qed.

Lemma find_no_match {A : Type} (p : A -> bool) (l : list A) :
  List.find p l = None <-> List.Forall (fun y => p y = false) l.
Proof.
  induction l as [|y l IH]; simpl; [by split; [constructor|]|].
  destruct (p y) eqn:Hy.
  - split; [done|]. intros Hall. inversion Hall; congruence.
  - rewrite IH. split; [by constructor | by inversion 1].
Qed.

(** X23.  [FilterVMByName] returns the first machine of the list that has
    the name; it fails on an empty list, and, with its other error, on a
    list in which no machine has the name. *)
Theorem FilterVMByName_first_match (vms : list VirtualMachine.t)
  (vmName : string) :
  (forall vm,
      FilterVMByName vms vmName = inr vm
      <-> exists before after,
            vms = before ++ vm :: after
            /\ VirtualMachine.Name vm = vmName
            /\ List.Forall (fun other => VirtualMachine.Name other <> vmName)
                           before)
  /\ (FilterVMByName vms vmName = inl ErrEmptyList <-> vms = [])
  /\ (FilterVMByName vms vmName = inl (ErrNoMatch vmName)
      <-> vms <> []
          /\ List.Forall (fun other => VirtualMachine.Name other <> vmName) vms).
Proof.
  assert (Hneq : forall l,
    List.Forall (fun y => String.eqb (VirtualMachine.Name y) vmName = false) l
    <-> List.Forall (fun other => VirtualMachine.Name other <> vmName) l).
  { intros l. split; intros Hall; (eapply List.Forall_impl; [|exact Hall]);
      intros other; by rewrite String.eqb_neq. }
  unfold FilterVMByName. destruct vms as [|first rest].
  - split; [|split].
    + intros vm. split; [done|].
      intros (before & after & Heq & _). by destruct before.
    + done.
    + split; [done|]. by intros [? _].
  - set (vms := first :: rest).
    destruct (List.find _ vms) as [found|] eqn:Hfind.
    + split; [|split].
      * intros vm. split.
        -- intros [= <-].
           apply find_first_match in Hfind
             as (before & after & Heq & Hname & Hbefore).
           exists before, after. split; [done|].
           split; [by apply String.eqb_eq | by apply Hneq].
        -- intros (before & after & Heq & Hname & Hbefore).
           assert (List.find
                     (fun vm => String.eqb (VirtualMachine.Name vm) vmName) vms
                   = Some vm) as Hsome; [|congruence].
           apply find_first_match. exists before, after.
           split; [done|]. split; [by apply String.eqb_eq | by apply Hneq].
      * done.
      * split; [done|]. intros [_ Hall]. apply Hneq, find_no_match in Hall.
        congruence.
    + split; [|split].
      * intros vm. split; [done|].
        intros (before & after & Heq & Hname & Hbefore).
        assert (List.find
                  (fun vm => String.eqb (VirtualMachine.Name vm) vmName) vms
                = Some vm) as Hsome; [|congruence].
        apply find_first_match. exists before, after.
        split; [done|]. split; [by apply String.eqb_eq | by apply Hneq].
      * done.
      * split; [|done]. intros _. split; [done|].
        by apply Hneq, find_no_match.
Qed.

Section MoreFieldsFacts.

Variable SummaryVm : VirtualMachine.t -> option ManagedObjectReference.t.
Variable PowerState : VirtualMachine.t -> string.

(** A machine whose reference is set and has another value. *)
Let passedOver (vmID : string) (vm : VirtualMachine.t) : Prop :=
  exists value, vmValue SummaryVm vm = Some value /\ value <> vmID.

Lemma findVMByID_found (vms : list VirtualMachine.t) (vmID : string) vm :
  findVMByID SummaryVm vms vmID = Some (inr vm)
  <-> exists before after,
        vms = before ++ vm :: after
        /\ vmValue SummaryVm vm = Some vmID
        /\ List.Forall (passedOver vmID) before.
Proof.
  unfold passedOver, vmValue.
  induction vms as [|first rest IH]; cbn [findVMByID].
  - split; [done|]. intros (before & after & Heq & _). by destruct before.
  - destruct (SummaryVm first) as [ref|] eqn:Hfirst.
    + destruct (String.eqb_spec (ManagedObjectReference.Value ref) vmID)
        as [Heq|Hne].
      * split.
        -- intros [= <-]. exists [], rest. rewrite Hfirst, Heq.
           by repeat split.
        -- intros (before & after & Hvms & Hvm & Hbefore).
           destruct before as [|other before]; simplify_eq/=; [done|].
           inversion Hbefore as [|? ? (value & Hvalue & Hdiff)]; subst.
           rewrite Hfirst in Hvalue. by simplify_eq.
      * rewrite IH. split.
        -- intros (before & after & -> & Hvm & Hbefore).
           exists (first :: before), after. repeat split; [done|].
           constructor; [|done].
           exists (ManagedObjectReference.Value ref). by rewrite Hfirst.
        -- intros (before & after & Hvms & Hvm & Hbefore).
           destruct before as [|other before]; simplify_eq/=.
           ++ rewrite Hfirst in Hvm. by simplify_eq.
           ++ exists before, after. repeat split; [done|].
              by inversion Hbefore.
    + split; [done|].
      intros (before & after & Hvms & Hvm & Hbefore).
      destruct before as [|other before]; simplify_eq/=.
      * by rewrite Hfirst in Hvm.
      * inversion Hbefore as [|? ? (value & Hvalue & _)]; subst.
        by rewrite Hfirst in Hvalue.
Qed.

Lemma findVMByID_panics (vms : list VirtualMachine.t) (vmID : string) :
  findVMByID SummaryVm vms vmID = None
  <-> exists before vm after,
        vms = before ++ vm :: after
        /\ SummaryVm vm = None
        /\ List.Forall (passedOver vmID) before.
Proof.
  unfold passedOver, vmValue.
  induction vms as [|first rest IH]; cbn [findVMByID].
  - split; [done|]. intros (before & vm & after & Heq & _). by destruct before.
  - destruct (SummaryVm first) as [ref|] eqn:Hfirst.
    + destruct (String.eqb_spec (ManagedObjectReference.Value ref) vmID)
        as [Heq|Hne].
      * split; [done|].
        intros (before & vm & after & Hvms & Hvm & Hbefore).
        destruct before as [|other before]; simplify_eq/=.
        inversion Hbefore as [|? ? (value & Hvalue & Hdiff)]; subst.
        rewrite Hfirst in Hvalue. by simplify_eq.
      * rewrite IH. split.
        -- intros (before & vm & after & -> & Hvm & Hbefore).
           exists (first :: before), vm, after. repeat split; [done|].
           constructor; [|done].
           exists (ManagedObjectReference.Value ref). by rewrite Hfirst.
        -- intros (before & vm & after & Hvms & Hvm & Hbefore).
           destruct before as [|other before]; simplify_eq/=.
           exists before, vm, after. repeat split; [done|].
           by inversion Hbefore.
    + split; [|done]. intros _. exists [], first, rest. by repeat split.
Qed.

Lemma findVMByID_not_empty (vms : list VirtualMachine.t) (vmID : string) :
  findVMByID SummaryVm vms vmID <> Some (inl ErrEmptyList).
Proof.
  induction vms as [|vm vms IH]; cbn [findVMByID]; [done|].
  destruct (SummaryVm vm) as [ref|]; [|done].
  by destruct (String.eqb _ vmID).
Qed.

(** X24.  [FilterVMByID] returns the first machine whose reference has
    the value sought, provided every machine before it has a reference;
    it stops with a nil pointer dereference exactly when it meets a
    machine without reference before any match; an empty list is an
    error, not a panic. *)
Theorem FilterVMByID_first_match (vms : list VirtualMachine.t)
  (vmID : string) :
  (forall vm,
      FilterVMByID SummaryVm vms vmID = Some (inr vm)
      <-> exists before after,
            vms = before ++ vm :: after
            /\ vmValue SummaryVm vm = Some vmID
            /\ List.Forall
                 (fun other =>
                    exists value,
                      vmValue SummaryVm other = Some value /\ value <> vmID)
                 before)
  /\ (FilterVMByID SummaryVm vms vmID = None
      <-> exists before vm after,
            vms = before ++ vm :: after
            /\ SummaryVm vm = None
            /\ List.Forall
                 (fun other =>
                    exists value,
                      vmValue SummaryVm other = Some value /\ value <> vmID)
                 before)
  /\ (FilterVMByID SummaryVm vms vmID = Some (inl ErrEmptyList) <-> vms = []).
Proof.
  unfold FilterVMByID. destruct vms as [|first rest].
  - split; [|split].
    + intros vm. split; [done|].
      intros (before & after & Heq & _). by destruct before.
    + split; [done|].
      intros (before & vm & after & Heq & _). by destruct before.
    + done.
  - split; [apply findVMByID_found|]. split; [apply findVMByID_panics|].
    split; [|done]. intros Hempty. by apply findVMByID_not_empty in Hempty.
Qed.

(** ** Power state *)

Let kept (includePoweredOff : bool) (vm : VirtualMachine.t) : bool :=
  String.eqb (PowerState vm) types.VirtualMachinePowerStatePoweredOn
  || includePoweredOff
     && String.eqb (PowerState vm) types.VirtualMachinePowerStatePoweredOff.

Lemma FilterVMsByPowerState_filter (vms : list VirtualMachine.t)
  (includePoweredOff : bool) :
  FilterVMsByPowerState PowerState vms includePoweredOff
  = List.filter (kept includePoweredOff) vms.
Proof.
  unfold FilterVMsByPowerState.
  assert (Hfold : forall l acc,
    foldl (fun filteredVMs vm =>
             if String.eqb (PowerState vm)
                           types.VirtualMachinePowerStatePoweredOn
             then filteredVMs ++ [vm]
             else if includePoweredOff
                     && String.eqb (PowerState vm)
                                   types.VirtualMachinePowerStatePoweredOff
             then filteredVMs ++ [vm]
             else filteredVMs) acc l
    = acc ++ List.filter (kept includePoweredOff) l).
  { induction l as [|vm l IH]; intros acc; simpl.
    - by rewrite app_nil_r.
    - rewrite IH. unfold kept.
      destruct (String.eqb (PowerState vm) _); simpl.
      + by rewrite <- app_assoc.
      + destruct (includePoweredOff && _); [|done]. by rewrite <- app_assoc. }
  destruct vms as [|vm vms]; [done|]. by rewrite Hfold.
Qed.

(** X25.  [FilterVMsByPowerState] keeps, in their order, the machines
    that are powered on and, when asked to, those that are powered off;
    a suspended machine is never kept; what is kept without the powered
    off machines is a sublist of what is kept with them. *)
Theorem FilterVMsByPowerState_keeps (vms : list VirtualMachine.t)
  (includePoweredOff : bool) :
  FilterVMsByPowerState PowerState vms includePoweredOff
  = List.filter
      (fun vm =>
         String.eqb (PowerState vm) types.VirtualMachinePowerStatePoweredOn
         || includePoweredOff
            && String.eqb (PowerState vm)
                          types.VirtualMachinePowerStatePoweredOff)
      vms
  /\ (forall vm,
        In vm (FilterVMsByPowerState PowerState vms includePoweredOff) ->
        PowerState vm <> types.VirtualMachinePowerStateSuspended)
  /\ sublist (FilterVMsByPowerState PowerState vms false)
             (FilterVMsByPowerState PowerState vms true).
Proof.
  split; [apply FilterVMsByPowerState_filter|]. split.
  - intros vm. rewrite FilterVMsByPowerState_filter.
    intros [_ Hkept]%filter_In Hsuspended. unfold kept in Hkept.
    rewrite Hsuspended in Hkept. cbn in Hkept.
    by destruct includePoweredOff.
  - rewrite !FilterVMsByPowerState_filter.
    induction vms as [|vm vms IH]; [done|]. unfold kept in *. simpl.
    destruct (String.eqb (PowerState vm) _); simpl.
    + by apply sublist_skip.
    + destruct (String.eqb (PowerState vm) _).
      * by apply sublist_cons.
      * done.
Qed.

(** ** Removing duplicates in place *)

Lemma dedupe_loop (rest : list VirtualMachine.t) :
  forall (i : nat) (st : DedupeState),
    List.Forall (fun vm => is_Some (SummaryVm vm)) rest ->
    drop i (backing st) = rest ->
    (j st <= i)%nat ->
    exists st',
      forRange (dedupeStep SummaryVm) (seq i (length rest)) st = Some st'
      /\ take (j st') (backing st')
         = take (j st) (backing st) ++ keepFirst SummaryVm (seen st) rest.
Proof.
  induction rest as [|vm rest IH]; intros i st Hall Hdrop Hj.
  - exists st. split; [done|]. by rewrite app_nil_r.
  - inversion Hall as [|? ? [ref Href] Hall']; subst.
    assert (Hlookup : backing st !! i = Some vm).
    { pose proof (lookup_drop (backing st) i 0) as Hl.
      rewrite Hdrop, Nat.add_0_r in Hl. by rewrite <- Hl. }
    assert (Hrest : drop (S i) (backing st) = rest).
    { rewrite (drop_S _ _ _ Hlookup) in Hdrop. by injection Hdrop. }
    cbn [length seq forRange keepFirst]. unfold dedupeStep at 1.
    rewrite Hlookup, Href.
    destruct (decide (ManagedObjectReference.Value ref ∈ seen st)) as [Hin|Hnin].
    + apply (IH (S i) st Hall' Hrest). lia.
    + set (st2 := {| backing := <[j st := vm]> (backing st);
                     seen := {[ManagedObjectReference.Value ref]} ∪ seen st;
                     j := S (j st) |}).
      assert (Hlen : (j st < length (backing st))%nat).
      { apply lookup_lt_Some in Hlookup. lia. }
      destruct (IH (S i) st2 Hall') as (st' & Hrun & Htake).
      * cbn [backing st2]. rewrite drop_insert_lt by lia. exact Hrest.
      * cbn [j st2]. lia.
      * exists st'. split; [exact Hrun|]. rewrite Htake.
        cbn [backing seen j st2].
        rewrite (take_S_r _ _ vm) by (by apply list_lookup_insert_eq).
        rewrite take_insert_ge by lia. by rewrite <- app_assoc.
Qed.

Lemma keepFirst_sublist met vms : sublist (keepFirst SummaryVm met vms) vms.
Proof.
  revert met. induction vms as [|vm vms IH]; intros met; cbn [keepFirst];
    [done|].
  destruct (SummaryVm vm) as [ref|]; [|by apply sublist_cons].
  destruct (decide (_ ∈ met)); [by apply sublist_cons | by apply sublist_skip].
Qed.

Lemma keepFirst_fresh met vms vm :
  In vm (keepFirst SummaryVm met vms) ->
  exists value, vmValue SummaryVm vm = Some value /\ value ∉ met.
Proof.
  revert met. induction vms as [|first vms IH]; intros met; cbn [keepFirst];
    [done|].
  destruct (SummaryVm first) as [ref|] eqn:Href; [|apply IH].
  destruct (decide (ManagedObjectReference.Value ref ∈ met)) as [Hin|Hnin];
    [apply IH|].
  intros [<-|Hvm].
  - exists (ManagedObjectReference.Value ref). unfold vmValue.
    by rewrite Href.
  - destruct (IH _ Hvm) as (value & Hvalue & Hfresh).
    exists value. split; [done|]. set_solver.
Qed.

Lemma keepFirst_NoDup met vms :
  NoDup (map (vmValue SummaryVm) (keepFirst SummaryVm met vms)).
Proof.
  revert met. induction vms as [|first vms IH]; intros met; cbn [keepFirst];
    [constructor|].
  destruct (SummaryVm first) as [ref|] eqn:Href; [|apply IH].
  destruct (decide (ManagedObjectReference.Value ref ∈ met)) as [Hin|Hnin];
    [apply IH|].
  cbn [map]. apply NoDup_cons. split; [|apply IH].
  rewrite list_elem_of_In. intros (vm & Hvalue & Hvm)%in_map_iff.
  destruct (keepFirst_fresh _ _ _ Hvm) as (value & Hvalue' & Hfresh).
  unfold vmValue in Hvalue at 2. rewrite Href in Hvalue.
  rewrite Hvalue' in Hvalue. injection Hvalue as ->. set_solver.
Qed.

Lemma keepFirst_complete met vms vm value :
  In vm vms -> vmValue SummaryVm vm = Some value ->
  value ∈ met
  \/ In (Some value) (map (vmValue SummaryVm) (keepFirst SummaryVm met vms)).
Proof.
  revert met. induction vms as [|first vms IH]; intros met; [done|].
  intros [->|Hin] Hvalue; cbn [keepFirst].
  - unfold vmValue in Hvalue.
    destruct (SummaryVm vm) as [ref|] eqn:Href; [|done].
    injection Hvalue as <-.
    destruct (decide (ManagedObjectReference.Value ref ∈ met)); [by left|].
    right. left. unfold vmValue. by rewrite Href.
  - destruct (SummaryVm first) as [ref|] eqn:Href; [|by apply IH].
    destruct (decide (ManagedObjectReference.Value ref ∈ met)) as [?|Hnin];
      [by apply IH|].
    destruct (IH ({[ManagedObjectReference.Value ref]} ∪ met) Hin Hvalue)
      as [Hmet|Hkept].
    + apply elem_of_union in Hmet as [->%elem_of_singleton|Hmet]; [|by left].
      right. left. unfold vmValue. by rewrite Href.
    + right. by right.
Qed.

(** X26.  On machines that all have a reference, [dedupeVMs], which
    overwrites the slice it ranges over, returns the machines whose
    reference value was not met earlier in the list: they keep their
    order, no value occurs twice among them, and every value of the list
    occurs among them. *)
Theorem dedupeVMs_keeps_first_occurrences (vms : list VirtualMachine.t) :
  List.Forall (fun vm => is_Some (SummaryVm vm)) vms ->
  exists result,
    dedupeVMs SummaryVm vms = Some result
    /\ result = keepFirst SummaryVm ∅ vms
    /\ sublist result vms
    /\ NoDup (map (vmValue SummaryVm) result)
    /\ (forall vm, In vm vms ->
          In (vmValue SummaryVm vm) (map (vmValue SummaryVm) result)).
Proof.
  intros Hall.
  destruct (dedupe_loop vms 0 {| backing := vms; seen := ∅; j := 0 |} Hall)
    as (st' & Hrun & Htake); [done | done |].
  exists (keepFirst SummaryVm ∅ vms). split.
  - unfold dedupeVMs. rewrite Hrun. by rewrite Htake.
  - split; [done|]. split; [apply keepFirst_sublist|].
    split; [apply keepFirst_NoDup|].
    intros vm Hin.
    assert (Hsome : is_Some (SummaryVm vm)).
    { by apply (proj1 (List.Forall_forall _ _) Hall). }
    destruct Hsome as [ref Href].
    assert (Hvalue : vmValue SummaryVm vm
                     = Some (ManagedObjectReference.Value ref)).
    { unfold vmValue. by rewrite Href. }
    rewrite Hvalue.
    destruct (keepFirst_complete ∅ vms vm _ Hin Hvalue) as [Hempty|Hkept];
      [set_solver | done].
Qed.

End MoreFieldsFacts.

(** Three machines, the third a second entry for the first reference. *)
Lemma dedupeVMs_keeps_first_occurrences_witness :
  let vms := [ machineNamed "a" "vm-1"; machineNamed "b" "vm-2";
               machineNamed "c" "vm-1" ] in
  List.Forall (fun vm => is_Some (selfAsSummaryVm vm)) vms
  /\ dedupeVMs selfAsSummaryVm vms
     = Some [ machineNamed "a" "vm-1"; machineNamed "b" "vm-2" ].
Proof.
  intros vms.
  assert (Hall : List.Forall (fun vm => is_Some (selfAsSummaryVm vm)) vms).
  { repeat constructor; by eexists. }
  split; [exact Hall|].
  destruct (dedupeVMs_keeps_first_occurrences selfAsSummaryVm vms Hall)
    as (result & Hrun & -> & _).
  rewrite Hrun. reflexivity.
Defined.

(** ** Logging levels *)

Lemma loggingLevels_cases (name : string) :
  (name = LogLevelDisabled \/ name = LogLevelPanic \/ name = LogLevelFatal
   \/ name = LogLevelError \/ name = LogLevelWarn \/ name = LogLevelInfo
   \/ name = LogLevelDebug \/ name = LogLevelTrace)
  \/ (loggingLevels !! name = None
      /\ forall globalLevel,
           setLoggingLevel name globalLevel
           = (globalLevel, Some ("invalid option provided: " ++ name)%string)).
Proof.
  destruct (String.eqb_spec name LogLevelDisabled) as [?|H1]; [tauto|].
  destruct (String.eqb_spec name LogLevelPanic) as [?|H2]; [tauto|].
  destruct (String.eqb_spec name LogLevelFatal) as [?|H3]; [tauto|].
  destruct (String.eqb_spec name LogLevelError) as [?|H4]; [tauto|].
  destruct (String.eqb_spec name LogLevelWarn) as [?|H5]; [tauto|].
  destruct (String.eqb_spec name LogLevelInfo) as [?|H6]; [tauto|].
  destruct (String.eqb_spec name LogLevelDebug) as [?|H7]; [tauto|].
  destruct (String.eqb_spec name LogLevelTrace) as [?|H8]; [tauto|].
  right. split.
  - unfold loggingLevels. rewrite !lookup_insert_ne by congruence.
    apply lookup_empty.
  - intros globalLevel. unfold setLoggingLevel.
    apply String.eqb_neq in H1, H2, H3, H4, H5, H6, H7, H8.
    by rewrite H1, H2, H3, H4, H5, H6, H7, H8.
Qed.

(** X27.  [setLoggingLevel] accepts exactly the names that are keys of
    [loggingLevels], and then sets the global level to the level the map
    records for the name; for any other name, in particular one that
    differs in case only, it returns the error naming the option and
    leaves the global level as it was; no two names share a level. *)
Theorem setLoggingLevel_follows_map (name : string) (globalLevel : Z) :
  match loggingLevels !! name with
  | Some level => setLoggingLevel name globalLevel = (level, None)
  | None =>
      setLoggingLevel name globalLevel
      = (globalLevel, Some ("invalid option provided: " ++ name)%string)
  end
  /\ (forall other level,
        loggingLevels !! name = Some level ->
        loggingLevels !! other = Some level -> name = other)
  /\ fst (setLoggingLevel "Debug" globalLevel) = globalLevel.
Proof.
  split; [|split; [|reflexivity]].
  - destruct (loggingLevels_cases name) as [Hname|[Hnone Herror]].
    + repeat (destruct Hname as [Hname|Hname]); subst name; reflexivity.
    + rewrite Hnone. apply Herror.
  - intros other level Hname Hother.
    destruct (loggingLevels_cases name) as [Hn|[Hnone _]]; [|congruence].
    destruct (loggingLevels_cases other) as [Ho|[Hnone _]]; [|congruence].
    repeat (destruct Hn as [Hn|Hn]); subst name;
      repeat (destruct Ho as [Ho|Ho]); subst other;
      vm_compute in Hname, Hother; congruence.
Qed.

(** ** Removing a list of keys *)

(** X28.  Removing the keys of one list from another, one call of
    [removeFileKey] per key, leaves a sublist in which every key occurs
    as often as before less its occurrences among the removed keys; when
    the list has no repeated key this is the list without the keys that
    occur among the removed ones, and removing from an empty list leaves
    it empty. *)
Theorem removing_keys_is_difference (l keys : list Z) :
  sublist (removeFileKeys l keys) l
  /\ (forall k, count_occ Z.eq_dec (removeFileKeys l keys) k
               = (count_occ Z.eq_dec l k - count_occ Z.eq_dec keys k)%nat)
  /\ (NoDup l ->
      removeFileKeys l keys
      = List.filter (fun k => negb (existsb (Z.eqb k) keys)) l)
  /\ removeFileKeys [] keys = [].
Proof.
  split; [apply removeFileKeys_sublist|].
  split; [intros k; apply count_occ_removeFileKeys|].
  split; [apply removeFileKeys_NoDup | apply removeFileKeys_nil_l].
Qed.
